(** * FilesStore: the in-memory mirror of the container's file tree

    A shallow embedding of [FilesStore] (app/lib/stores/files.ts): the
    reconciliation of watch events into the file map, the binary
    classifier, the direct write path [saveFile] with its modification
    ledger, and the bulk import [loadFromFileSystem].

    The class mutates its fields, calls into the container and logs; the
    model threads an explicit [World] through a small error-and-state
    monad [M].  Everything the class imports from other packages
    (istextorbinary, TextDecoder, node:path, nanostores, ignore, the
    WebContainer file system, Math.random) is a field of the class
    [Platform], so every theorem holds for every implementation of them.

    Conventions of the model:
    - the tree [this.files.get()] is a [gmap] from paths to entries, and a
      key whose lookup is [None] is an absent ([undefined]) key;
    - [#size] is an integer of [Z] (the source counts in JavaScript
      numbers, exact far beyond any number of events);
    - strings are byte strings, buffers are lists of bytes;
    - an [async] method runs from start to end without another method
      of the store running between its steps;
    - what leaves the class (calls of the container, log lines) is
      appended to the [trace] of the world, oldest first. *)

From Stdlib Require Import ZArith String Ascii List Lia Bool.
From Stdlib.Strings Require Import Byte.
From stdpp Require Import base gmap strings list.
Import ListNotations.

Set Warnings "-register-all".

Local Open Scope Z_scope.
Local Open Scope string_scope.
Local Open Scope list_scope.

(** ** Data model *)

(** [type Dirent = File | Folder]. *)
Inductive Dirent : Type :=
| File (content : string) (isBinary : bool)
| Folder.

#[global] Instance Dirent_eq_dec : EqDecision Dirent.
Proof. solve_decision. Defined.

(** [interface UploadedFile]. *)
Record UploadedFile : Type := mkUploadedFile {
  id : string;
  upload_path : string;
  upload_content : string
}.

(** [type FileMap = Record<string, Dirent | undefined>]: a lookup that
    yields [None] is the JavaScript [undefined], whether the key was never
    set or was set to [undefined]. *)
Abbreviation FileMap := (gmap string Dirent).

(** The kinds of [PathWatcherEvent] the switch of [#processEventBuffer]
    names. *)
Inductive EventType : Type :=
| add_dir | remove_dir | add_file | change | remove_file | update_directory.

#[global] Instance EventType_eq_dec : EqDecision EventType.
Proof. solve_decision. Defined.

(** [{ type, path, buffer }]; [buffer] is optional in the source. *)
Record PathWatcherEvent : Type := mkEvent {
  type : EventType;
  path : string;
  buffer : option (list byte)
}.

(** What a rejected promise or a [throw] carries.  [EINVAL p] is
    [new Error(`EINVAL: invalid file path, write '${p}'`)]; [HostError] is
    whatever the container or the file system access API rejects with. *)
Inductive Error : Type :=
| EINVAL (relativePath : string)
| UnreachableError (message : string)
| TypeError (message : string)
| HostError (code : string).

Inductive Result (A : Type) : Type :=
| Ok (a : A)
| Throw (e : Error).
Arguments Ok {A} a.
Arguments Throw {A} e.

(** What [getEncoding] of istextorbinary answers. *)
Inductive Encoding : Type := utf8 | binary.

(** An entry of a [FileSystemDirectoryHandle]: a file with what
    [getFile()] followed by [text()] gives (the text, or the error of a
    file that cannot be read), or a directory with its entries in the
    order [handle.values()] yields them. *)
Inductive FsEntry : Type :=
| FileEntry (name : string) (text : Result string)
| DirectoryEntry (name : string) (entries : list FsEntry).

(** Induction over an entry and, for a directory, all of its entries. *)
Fixpoint FsEntry_nested_ind (Q : FsEntry → Prop)
    (Hfile : ∀ n text, Q (FileEntry n text))
    (Hdir : ∀ n entries, Forall Q entries → Q (DirectoryEntry n entries))
    (e : FsEntry) : Q e :=
  match e with
  | FileEntry n text => Hfile n text
  | DirectoryEntry n entries =>
      Hdir n entries
        ((fix all (es : list FsEntry) : Forall Q es :=
            match es with
            | [] => Stdlib.Lists.List.Forall_nil Q
            | e' :: es' =>
                Stdlib.Lists.List.Forall_cons Q e' es'
                  (FsEntry_nested_ind Q Hfile Hdir e') (all es')
            end) entries)
  end.

Definition entry_name (e : FsEntry) : string :=
  match e with
  | FileEntry n _ => n
  | DirectoryEntry n _ => n
  end.

(** Every file of the entry can be read. *)
Fixpoint readable (e : FsEntry) : bool :=
  match e with
  | FileEntry _ (Ok _) => true
  | FileEntry _ (Throw _) => false
  | DirectoryEntry _ entries => forallb readable entries
  end.

(** ** The imported packages *)

Class Platform : Type := {
  (** istextorbinary: [getEncoding(buffer, { chunkLength })]; [None] is
      its [null]. *)
  getEncoding : list byte -> nat -> option Encoding;
  (** [new TextDecoder('utf8', { fatal: true }).decode(buffer)]: the text,
      or the [TypeError] a malformed sequence raises. *)
  utf8_decode : list byte -> Result string;
  (** node:path *)
  path_relative : string -> string -> string;
  path_dirname : string -> string;
  (** nanostores: the own enumerable property names of the [MapStore]
      object held in [this.files] (its methods and fields), which is what
      [Object.entries(this.files)] enumerates.  The tree itself is
      [this.files.get()]. *)
  mapStoreOwnKeys : list string;
  (** ignore: [ignore()], [.add(text)], [.add(patterns)], [.ignores(p)]. *)
  Ignore : Type;
  ignore_new : Ignore;
  ignore_add_text : string -> Ignore -> Ignore;
  ignore_add_patterns : list string -> Ignore -> Ignore;
  ignores : Ignore -> string -> bool;
  (** The WebContainer: its [workdir] and the two calls of [fs] the class
      makes; each may reject. *)
  Container : Type;
  workdir : Container -> string;
  fs_writeFile : string -> string -> Container -> Result unit * Container;
  fs_mkdir : string -> Container -> Result unit * Container;
  (** The [n]-th value of
      [Math.random().toString(36).substring(2, 15)]. *)
  random_id : nat -> string
}.

(** Calls and log lines that leave the class, in the order issued. *)
Inductive Effect : Type :=
| FsWriteFile (path content : string)
| FsMkdir (path : string)
| ConsoleLog (e : Error)
| LoggerInfo (message : string)
| LoggerError (message : string) (e : Error).

(** The fields of the class. *)
Record FilesStore : Type := mkStore {
  files : FileMap;
  size : Z;
  modifiedFiles : gmap string string;
  uploadedFiles : list UploadedFile
}.

Section Model.

Context `{Platform}.

(** The store together with what lies outside it: the container, how many
    random ids were drawn, and the effects issued so far. *)
Record World : Type := mkWorld {
  store : FilesStore;
  container : Container;
  drawn : nat;
  trace : list Effect
}.

(** ** The monad: state and exceptions *)

Definition M (A : Type) : Type := World -> Result A * World.

Definition ret {A} (a : A) : M A := fun w => (Ok a, w).

Definition bind {A B} (m : M A) (k : A -> M B) : M B :=
  fun w =>
    match m w with
    | (Ok a, w') => k a w'
    | (Throw e, w') => (Throw e, w')
    end.

Definition throw {A} (e : Error) : M A := fun w => (Throw e, w).

(** [try { m } catch (error) { handler(error) }] *)
Definition try_catch {A} (m : M A) (handler : Error -> M A) : M A :=
  fun w =>
    match m w with
    | (Ok a, w') => (Ok a, w')
    | (Throw e, w') => handler e w'
    end.

(** [await] of a promise that has settled as [r]. *)
Definition settle {A} (r : Result A) : M A := fun w => (r, w).

Definition get_store : M FilesStore := fun w => (Ok (store w), w).

Definition modify_store (f : FilesStore -> FilesStore) : M unit :=
  fun w => (Ok tt, mkWorld (f (store w)) (container w) (drawn w) (trace w)).

Definition emit (e : Effect) : M unit :=
  fun w => (Ok tt, mkWorld (store w) (container w) (drawn w) (trace w ++ [e])).

Notation "'let!' x ':=' m 'in' k" := (bind m (fun x => k))
  (at level 10, x name, m at level 100, k at level 200).
Notation "'do!' m 'in' k" := (bind m (fun _ => k))
  (at level 10, m at level 100, k at level 200).

(** [for (const x of l) { body(x) }] *)
Fixpoint for_each {A} (l : list A) (body : A -> M unit) : M unit :=
  match l with
  | [] => ret tt
  | x :: l' => do! body x in for_each l' body
  end.

(** ** Field updates *)

Definition with_files (f : FileMap) (s : FilesStore) : FilesStore :=
  mkStore f (size s) (modifiedFiles s) (uploadedFiles s).

Definition with_size (n : Z) (s : FilesStore) : FilesStore :=
  mkStore (files s) n (modifiedFiles s) (uploadedFiles s).

Definition with_modifiedFiles (m : gmap string string) (s : FilesStore) : FilesStore :=
  mkStore (files s) (size s) m (uploadedFiles s).

Definition with_uploadedFiles (u : list UploadedFile) (s : FilesStore) : FilesStore :=
  mkStore (files s) (size s) (modifiedFiles s) u.

(** [this.files.setKey(key, value)]: afterwards [get()[key]] is [value]. *)
Definition setKey (key : string) (value : option Dirent) : M unit :=
  modify_store (fun s =>
    with_files (match value with
                | Some d => <[key := d]> (files s)
                | None => delete key (files s)
                end) s).

(** [getFile(filePath)] *)
Definition getFile (filePath : string) : M (option Dirent) :=
  let! s := get_store in
  match files s !! filePath with
  | Some (File c b) => ret (Some (File c b))
  | _ => ret None
  end.

(** [get filesCount()] *)
Definition filesCount : M Z :=
  let! s := get_store in ret (size s).

(** ** The binary classifier *)

(** [isBinaryFile(buffer)]: a function of the module, outside the class.
    [convertToBuffer] makes a view of the same bytes. *)
Definition convertToBuffer (view : list byte) : list byte := view.

Definition isBinaryFile (buffer : option (list byte)) : bool :=
  match buffer with
  | None => false
  | Some b =>
      match getEncoding (convertToBuffer b) 100 with
      | Some binary => true
      | _ => false
      end
  end.

(** [#decodeFileContent(buffer)] *)
Definition decodeFileContent (buffer : option (list byte)) : M string :=
  match buffer with
  | None => ret ""
  | Some [] => ret ""
  | Some b =>
      try_catch
        (match utf8_decode b with
         | Ok text => ret text
         | Throw e => throw e
         end)
        (fun error => do! emit (ConsoleLog error) in ret "")
  end.

(** The classification the [add_file] / [change] arm performs:
    [let content = ''; const isBinary = isBinaryFile(buffer);
     if (!isBinary) content = this.#decodeFileContent(buffer);]
    giving [{ isBinary, content }]. *)
Definition classify (buffer : option (list byte)) : M (bool * string) :=
  let isBinary := isBinaryFile buffer in
  let! content := (if negb isBinary then decodeFileContent buffer else ret "") in
  ret (isBinary, content).

(** ** The tree reconciler *)

(** [path.replace(/\/+$/g, '')]: the run of slashes at the end goes. *)
Fixpoint sanitizePath (p : string) : string :=
  match p with
  | EmptyString => EmptyString
  | String c rest =>
      match sanitizePath rest with
      | EmptyString => if Ascii.eqb c "/" then EmptyString else String c EmptyString
      | r => String c r
      end
  end.

(** One turn of the loop of [#processEventBuffer].  In the [remove_dir]
    arm the source iterates [Object.entries(this.files)]: [this.files] is
    the [MapStore] (the tree is read as [this.files.get()] everywhere
    else), so the loop runs over the names of the store object's own
    members, [mapStoreOwnKeys]. *)
Definition processEvent (ev : PathWatcherEvent) : M unit :=
  let sanitizedPath := sanitizePath (path ev) in
  match type ev with
  | add_dir => setKey sanitizedPath (Some Folder)
  | remove_dir =>
      do! setKey sanitizedPath None in
      for_each mapStoreOwnKeys (fun direntPath =>
        if String.prefix sanitizedPath direntPath
        then setKey direntPath None
        else ret tt)
  | add_file =>
      do! modify_store (fun s => with_size (size s + 1) s) in
      let! r := classify (buffer ev) in
      setKey sanitizedPath (Some (File (snd r) (fst r)))
  | change =>
      let! r := classify (buffer ev) in
      setKey sanitizedPath (Some (File (snd r) (fst r)))
  | remove_file =>
      do! modify_store (fun s => with_size (size s - 1) s) in
      setKey sanitizedPath None
  | update_directory => ret tt
  end.

(** [#processEventBuffer(events)]: [events.flat(2)], then the loop.  Each
    element of [events] is a one-element tuple holding a list of events. *)
Definition processEventBuffer (events : list (list PathWatcherEvent)) : M unit :=
  let watchEvents := concat events in
  for_each watchEvents processEvent.

(** ** The direct write path *)

(** Modelled from the spec: [unreachable] of [~/utils/unreachable], which
    is not among the sources.  Its result type is [never]; the spec calls
    the case a fatal programming error that aborts the operation, distinct
    from ordinary errors, so it raises an error of a kind of its own. *)
Definition unreachable {A} (message : string) : M A :=
  throw (UnreachableError message).

(** [await webcontainer.fs.writeFile(path, content)] *)
Definition writeFile (path content : string) : M unit :=
  fun w =>
    let w1 := mkWorld (store w) (container w) (drawn w)
                      (trace w ++ [FsWriteFile path content]) in
    let '(r, c) := fs_writeFile path content (container w1) in
    (r, mkWorld (store w1) c (drawn w1) (trace w1)).

(** [await wc.fs.mkdir(path, { recursive: true })] *)
Definition mkdir (path : string) : M unit :=
  fun w =>
    let w1 := mkWorld (store w) (container w) (drawn w)
                      (trace w ++ [FsMkdir path]) in
    let '(r, c) := fs_mkdir path (container w1) in
    (r, mkWorld (store w1) c (drawn w1) (trace w1)).

(** [Math.random().toString(36).substring(2, 15)] *)
Definition fresh_id : M string :=
  fun w => (Ok (random_id (drawn w)),
            mkWorld (store w) (container w) (S (drawn w)) (trace w)).

Definition get_workdir : M string := fun w => (Ok (workdir (container w)), w).

(** A string is falsy exactly when it is empty. *)
Definition is_empty (s : string) : bool :=
  match s with
  | EmptyString => true
  | _ => false
  end.

(** [this.getFile(filePath)?.content] *)
Definition getFile_content (filePath : string) : M (option string) :=
  let! dirent := getFile filePath in
  match dirent with
  | Some (File c _) => ret (Some c)
  | _ => ret None
  end.

(** [uploadFile(file)], for a file of name [name] whose [text()] settles
    as [text]: the text, or the error of a file that cannot be read. *)
Definition uploadFile (name : string) (text : Result string) : M unit :=
  let! content := settle text in
  let! id := fresh_id in
  do! writeFile name content in
  modify_store (fun s =>
    with_uploadedFiles (uploadedFiles s ++ [mkUploadedFile id name content]) s).

(** The first argument of [logger.error] in [saveFile]: the text and two
    line feeds. *)
Definition update_failed : string :=
  String.append "Failed to update file content"
    (String "010" (String "010" EmptyString)).

(** [saveFile(filePath, content)] *)
Definition saveFile (filePath content : string) : M unit :=
  try_catch
    (let! wd := get_workdir in
     let relativePath := path_relative wd filePath in
     if is_empty relativePath then throw (EINVAL relativePath)
     else
       let! oldContent := getFile_content filePath in
       match oldContent with
       | None => unreachable "Expected content to be defined"
       | Some oldContent =>
           if is_empty oldContent
           then unreachable "Expected content to be defined"
           else
             do! writeFile relativePath content in
             let! s := get_store in
             do! (if decide (is_Some (modifiedFiles s !! filePath))
                  then ret tt
                  else modify_store (fun s =>
                         with_modifiedFiles
                           (<[filePath := oldContent]> (modifiedFiles s)) s)) in
             do! setKey filePath (Some (File content false)) in
             emit (LoggerInfo "File updated")
       end)
    (fun error =>
       do! emit (LoggerError update_failed error) in
       throw error).

(** [resetFileModifications()] *)
Definition resetFileModifications : M unit :=
  modify_store (with_modifiedFiles ∅).

(** ** Bulk import *)

(** [sourceHandle.getFileHandle(name)] followed by [getFile()] and
    [text()]: the text of the file of that name, or the error of reading
    it; a [NotFoundError] when no entry has the name, a
    [TypeMismatchError] when it is a directory. *)
Fixpoint getFileHandle_text (handle : list FsEntry) (name : string) : Result string :=
  match handle with
  | [] => Throw (HostError "NotFoundError")
  | FileEntry n text :: rest =>
      if String.eqb n name then text else getFileHandle_text rest name
  | DirectoryEntry n _ :: rest =>
      if String.eqb n name then Throw (HostError "TypeMismatchError")
      else getFileHandle_text rest name
  end.

(** The rules used when [.gitignore] cannot be read. *)
Definition default_patterns : list string :=
  ["node_modules"; ".git"; "dist"; "build"; ".cache"; "*.log"; ".DS_Store"].

(** The rule set [loadFromFileSystem] builds before it walks the tree. *)
Definition load_ignore (sourceHandle : list FsEntry) : Ignore :=
  match getFileHandle_text sourceHandle ".gitignore" with
  | Ok gitignoreContent => ignore_add_text gitignoreContent ignore_new
  | Throw _ => ignore_add_patterns default_patterns ignore_new
  end.

(** [currentPath ? `${currentPath}/${entry.name}` : entry.name] *)
Definition entryPath_of (currentPath name : string) : string :=
  if is_empty currentPath then name
  else String.append currentPath (String.append "/" name).

(** One turn of the loop of [processDirectory], for [entry] met under
    [currentPath]; a directory recurses into its entries. *)
Fixpoint processEntry (ig : Ignore) (currentPath : string) (entry : FsEntry) : M unit :=
  let entryPath := entryPath_of currentPath (entry_name entry) in
  if ignores ig entryPath then ret tt
  else
    match entry with
    | FileEntry _ text =>
        let! content := settle text in
        let! id := fresh_id in
        let dirPath := path_dirname entryPath in
        do! (if String.eqb dirPath "." then ret tt else mkdir dirPath) in
        do! writeFile entryPath content in
        modify_store (fun s =>
          with_uploadedFiles
            (uploadedFiles s ++ [mkUploadedFile id entryPath content]) s)
    | DirectoryEntry _ entries =>
        do! mkdir entryPath in
        (fix processEntries (es : list FsEntry) : M unit :=
           match es with
           | [] => ret tt
           | e :: es' => do! processEntry ig entryPath e in processEntries es'
           end) entries
    end.

(** [processDirectory(handle, currentPath)] *)
Definition processDirectory (ig : Ignore) (handle : list FsEntry) (currentPath : string) : M unit :=
  for_each handle (processEntry ig currentPath).

(** [loadFromFileSystem(sourceHandle)] *)
Definition loadFromFileSystem (sourceHandle : list FsEntry) : M unit :=
  let ig := load_ignore sourceHandle in
  processDirectory ig sourceHandle "".

(** ** Vocabulary of the statements *)

(** What a watch event leaves alone: the ledger, the upload log, the
    container and the random source. *)
Definition same_outside_tree (w w' : World) : Prop :=
  modifiedFiles (store w') = modifiedFiles (store w)
  ∧ uploadedFiles (store w') = uploadedFiles (store w)
  ∧ container w' = container w
  ∧ drawn w' = drawn w.

(** An effect that is no write to a path the rules [ig] match. *)
Definition write_respects (ig : Ignore) (e : Effect) : Prop :=
  match e with
  | FsWriteFile p _ => ignores ig p = false
  | _ => True
  end.

(** [w'] is [w] with more effects issued and more uploads recorded, none
    of them a write or a record of a path the rules [ig] match. *)
Definition import_extends (ig : Ignore) (w w' : World) : Prop :=
  ∃ (effects : list Effect) (uploads : list UploadedFile),
    trace w' = trace w ++ effects
    ∧ uploadedFiles (store w') = uploadedFiles (store w) ++ uploads
    ∧ Forall (write_respects ig) effects
    ∧ Forall (λ u, ignores ig (upload_path u) = false) uploads.

(** The container accepts every call as long as it is in a state of
    [healthy], and its calls keep it there. *)
Definition container_accepts (healthy : Container → Prop) : Prop :=
  ∀ c, healthy c →
    (∀ p text, fst (fs_writeFile p text c) = Ok tt
               ∧ healthy (snd (fs_writeFile p text c)))
    ∧ (∀ p, fst (fs_mkdir p c) = Ok tt ∧ healthy (snd (fs_mkdir p c))).

(** The source tree of the import scenario. *)
Definition scenario_tree (log_text main_text : string) : list FsEntry :=
  [FileEntry ".gitignore" (Ok "*.log");
   FileEntry "error.log" (Ok log_text);
   FileEntry "main.ts" (Ok main_text)].

(** What one event of kind [t] adds to [#size]. *)
Definition counter_delta (t : EventType) : Z :=
  match t with
  | add_file => 1
  | remove_file => -1
  | _ => 0
  end.

(** The batch of the directory-removal scenario; the buffers hold the
    bytes of [x] and [y]. *)
Definition scenario_batch : list (list PathWatcherEvent) :=
  [[mkEvent add_dir "/src" None;
    mkEvent add_file "/src/a.ts" (Some [x78]);
    mkEvent add_dir "/src/sub" None;
    mkEvent add_file "/src/sub/b.ts" (Some [x79]);
    mkEvent remove_dir "/src" None]].

End Model.

(** ** A concrete platform

    A small implementation of [Platform], used to run the model on
    concrete inputs.  The theorems below are proved for every platform;
    this one shows their hypotheses can be met. *)

Module Sample.

(** A sniffer in the manner of istextorbinary: a buffer is binary when one
    of its first [chunkLength] bytes is a control character below 9. *)
Definition getEncoding (b : list byte) (chunkLength : nat) : option Encoding :=
  if existsb (fun x => (Byte.to_N x <? 9)%N) (firstn chunkLength b)
  then Some binary else Some utf8.

Definition in_range (lo hi x : N) : bool := ((lo <=? x) && (x <=? hi))%N.

Definition continuation (x : N) : bool := in_range 128 191 x.

(** Well-formed UTF-8, as the decoder of the encoding standard accepts
    it: no overlong forms, no surrogates, nothing above U+10FFFF. *)
Fixpoint well_formed_utf8 (l : list N) : bool :=
  match l with
  | [] => true
  | b :: r =>
      if (b <? 128)%N then well_formed_utf8 r
      else if in_range 194 223 b then
        match r with
        | c1 :: r1 => continuation c1 && well_formed_utf8 r1
        | _ => false
        end
      else if in_range 224 239 b then
        match r with
        | c1 :: c2 :: r2 =>
            in_range (if (b =? 224)%N then 160 else 128)
                     (if (b =? 237)%N then 159 else 191) c1
            && continuation c2 && well_formed_utf8 r2
        | _ => false
        end
      else if in_range 240 244 b then
        match r with
        | c1 :: c2 :: c3 :: r3 =>
            in_range (if (b =? 240)%N then 144 else 128)
                     (if (b =? 244)%N then 143 else 191) c1
            && continuation c2 && continuation c3 && well_formed_utf8 r3
        | _ => false
        end
      else false
  end.

(** The decoded text is kept as its UTF-8 bytes. *)
Definition utf8_decode (b : list byte) : Result string :=
  if well_formed_utf8 (map Byte.to_N b)
  then Ok (string_of_list_byte b)
  else Throw (TypeError "The encoded data was not valid.").

(** [s] without the prefix [p], when it has it. *)
Fixpoint strip_prefix (p s : string) : option string :=
  match p, s with
  | EmptyString, _ => Some s
  | String a p', String b s' => if Ascii.eqb a b then strip_prefix p' s' else None
  | String _ _, EmptyString => None
  end.

(** [path.relative] on a path below [from] (or equal to it); other paths
    are returned as they are. *)
Definition path_relative (from to : string) : string :=
  if String.eqb from to then ""
  else match strip_prefix (String.append from "/") to with
       | Some rest => rest
       | None => to
       end.

(** The text before the last slash of [p], if it has one. *)
Fixpoint before_last_slash (p : string) : option string :=
  match p with
  | EmptyString => None
  | String c rest =>
      match before_last_slash rest with
      | Some d => Some (String c d)
      | None => if Ascii.eqb c "/" then Some EmptyString else None
      end
  end.

Definition path_dirname (p : string) : string :=
  match before_last_slash p with
  | None => "."
  | Some EmptyString => "/"
  | Some d => d
  end.

(** The members of the object nanostores' [map()] returns. *)
Definition mapStoreOwnKeys : list string :=
  ["get"; "lc"; "listen"; "notify"; "off"; "set"; "subscribe"; "value"; "setKey"].

(** [s] cut at every [sep]. *)
Fixpoint split_on (sep : ascii) (s : string) : list string :=
  match s with
  | EmptyString => [EmptyString]
  | String c rest =>
      match split_on sep rest with
      | cur :: more =>
          if Ascii.eqb c sep then EmptyString :: cur :: more
          else String c cur :: more
      | [] => [String c EmptyString]
      end
  end.

Fixpoint ends_with (suffix s : string) : bool :=
  String.eqb suffix s ||
  match s with
  | EmptyString => false
  | String _ rest => ends_with suffix rest
  end.

(** A rule [*x] matches a path whose last segment ends with [x]; any other
    rule matches a path one of whose segments is the rule. *)
Definition rule_matches (p rule : string) : bool :=
  let segments := split_on "/" p in
  match rule with
  | EmptyString => false
  | String "*" suffix => ends_with suffix (List.last segments EmptyString)
  | _ => existsb (String.eqb rule) segments
  end.

Definition ignores (rules : list string) (p : string) : bool :=
  existsb (rule_matches p) rules.

(** A container that rejects writes to the paths it holds as read-only. *)
Record Container : Type := mkContainer {
  workdir : string;
  read_only : list string
}.

Definition fs_writeFile (p content : string) (c : Container) : Result unit * Container :=
  if existsb (String.eqb p) (read_only c)
  then (Throw (HostError "EACCES"), c)
  else (Ok tt, c).

Definition fs_mkdir (p : string) (c : Container) : Result unit * Container :=
  (Ok tt, c).

Definition random_id (n : nat) : string :=
  String.append "id" (string_of_list_byte (repeat x30 n)).

End Sample.

Definition sample : Platform := {|
  getEncoding := Sample.getEncoding;
  utf8_decode := Sample.utf8_decode;
  path_relative := Sample.path_relative;
  path_dirname := Sample.path_dirname;
  mapStoreOwnKeys := Sample.mapStoreOwnKeys;
  Ignore := list string;
  ignore_new := [];
  ignore_add_text := fun text rules => (rules ++ Sample.split_on "010" text)%list;
  ignore_add_patterns := fun patterns rules => (rules ++ patterns)%list;
  ignores := Sample.ignores;
  Container := Sample.Container;
  workdir := Sample.workdir;
  fs_writeFile := Sample.fs_writeFile;
  fs_mkdir := Sample.fs_mkdir;
  random_id := Sample.random_id
|}.

(** The store as the constructor leaves it, in a world with nothing
    issued yet. *)
Definition empty_store : FilesStore := mkStore ∅ 0 ∅ [].

Definition initial_world `{Platform} (c : Container) : World :=
  mkWorld empty_store c 0%nat [].

(** A container of the sample platform with nothing read-only, and one
    that rejects writes to [locked.ts]. *)
Definition sample_container : Sample.Container :=
  Sample.mkContainer "/home/project" [].

Definition locked_container : Sample.Container :=
  Sample.mkContainer "/home/project" ["locked.ts"].

(** A world of the sample platform holding the tree [tree], with an empty
    ledger. *)
Definition sample_world (tree : FileMap) (c : Sample.Container) : @World sample :=
  @mkWorld sample (mkStore tree 0 ∅ []) c 0%nat [].

(** A directory with one file in it. *)
Definition src_tree : FileMap :=
  <["/src" := Folder]> (<["/src/a.ts" := File "x" false]> ∅).

(** The world after one [add_file] event for the working directory
    itself, with a zero-length buffer. *)
Definition workdir_file_world : @World sample :=
  snd (@processEventBuffer sample
         [[mkEvent add_file "/home/project/" (Some [])]]
         (@initial_world sample sample_container)).

(** Trees with one file below the working directory. *)
Definition one_file_tree (name content : string) : FileMap :=
  <[String.append "/home/project/" name := File content false]> ∅.

(** ** Calls of the store, one after another *)

Section Calls.

Context `{Platform}.

(** [w] with the effects [log] issued after those it has. *)
Definition log_more (log : list Effect) (w : World) : World :=
  mkWorld (store w) (container w) (drawn w) (trace w ++ log).

(** A line of [console.log]. *)
Definition is_console_log (e : Effect) : Prop :=
  match e with
  | ConsoleLog _ => True
  | _ => False
  end.

(** The writes of files among the effects [l], in the order issued, each
    with its path and content. *)
Definition writes_of (l : list Effect) : list (string * string) :=
  flat_map (λ e, match e with
                 | FsWriteFile p c => [(p, c)]
                 | _ => []
                 end) l.

(** What an upload record says was uploaded. *)
Definition uploaded (u : UploadedFile) : string * string :=
  (upload_path u, upload_content u).

(** The files an import of [entry], met under [currentPath], is to write:
    in the order of the walk, those that can be read and that the rules
    [ig] match neither themselves nor through a directory above them. *)
Fixpoint entry_plan (ig : Ignore) (currentPath : string) (entry : FsEntry)
    : list (string * string) :=
  let entryPath := entryPath_of currentPath (entry_name entry) in
  if ignores ig entryPath then []
  else
    match entry with
    | FileEntry _ (Ok text) => [(entryPath, text)]
    | FileEntry _ (Throw _) => []
    | DirectoryEntry _ entries => flat_map (entry_plan ig entryPath) entries
    end.

Definition import_plan (ig : Ignore) (handle : list FsEntry) : list (string * string) :=
  flat_map (entry_plan ig "") handle.

(** [res] is the outcome of a step of an import started in [w] that is
    to write the files [plan]: the tree, the counter and the ledger are
    as in [w]; the files written so far are the first of the plan, in its
    order; the records added are for the files written, in that order,
    but for the last write when it was rejected; and a step that returns
    has written and recorded the whole plan. *)
Definition follows_plan (plan : list (string * string)) (w : World)
    (res : Result unit * World) : Prop :=
  files (store (snd res)) = files (store w)
  ∧ size (store (snd res)) = size (store w)
  ∧ modifiedFiles (store (snd res)) = modifiedFiles (store w)
  ∧ ∃ (effects : list Effect) (uploads : list UploadedFile),
      trace (snd res) = trace w ++ effects
      ∧ uploadedFiles (store (snd res)) = uploadedFiles (store w) ++ uploads
      ∧ map uploaded uploads `prefix_of` writes_of effects
      ∧ writes_of effects `prefix_of` plan
      ∧ (length (writes_of effects) ≤ S (length uploads))%nat
      ∧ (fst res = Ok tt →
         map uploaded uploads = plan ∧ writes_of effects = plan).

(** A call of the store from outside: the watcher delivering a batch, or
    one of the methods that change it. *)
Inductive Call : Type :=
| CallWatch (events : list (list PathWatcherEvent))
| CallSaveFile (filePath content : string)
| CallUploadFile (name : string) (text : Result string)
| CallLoadFromFileSystem (sourceHandle : list FsEntry)
| CallResetFileModifications.

Definition run_call (c : Call) : M unit :=
  match c with
  | CallWatch events => processEventBuffer events
  | CallSaveFile filePath content => saveFile filePath content
  | CallUploadFile name text => uploadFile name text
  | CallLoadFromFileSystem sourceHandle => loadFromFileSystem sourceHandle
  | CallResetFileModifications => resetFileModifications
  end.

(** The calls [l] made in turn; a call that rejects does not keep the
    next one from being made. *)
Fixpoint run_calls (l : list Call) (w : World) : World :=
  match l with
  | [] => w
  | c :: l' => run_calls l' (snd (run_call c w))
  end.

Definition is_reset (c : Call) : Prop :=
  match c with
  | CallResetFileModifications => True
  | _ => False
  end.

End Calls.

(** ** The upload hook

    [useFileUploads] (app/lib/hooks/useFileUploads.ts): the body of
    [processNewUploads], over the state it reads and changes, the set
    [processedFiles.current] and the array [messages].  The two callbacks
    it is given are observers: a call of each is recorded with the array
    it was handed, and [storeMessageHistory] settles as its argument to
    the model says. *)

(** [Message] of the package ai, with the fields the hook sets. *)
Record Message : Type := mkMessage {
  message_id : string;
  role : string;
  message_content : string;
  createdAt : Z
}.

Inductive HookCall : Type :=
| StoreMessageHistory (messages : list Message)
| ParseMessages (messages : list Message) (isLoading : bool).

Record HookState : Type := mkHook {
  processedFiles : gset string;
  messages : list Message;
  clock : nat;
  hook_calls : list HookCall
}.

Definition double_quote : string := String "034" EmptyString.

Definition line_feed : string := String "010" EmptyString.

(** The three characters the template of the source holds between the
    content and the closing tag, as bytes of UTF-8. *)
Definition template_residue : string :=
  String "195" (String "175" (String "194" (String "191"
    (String "194" (String "189" EmptyString))))).

Definition concat_strings (l : list string) : string :=
  foldr String.append EmptyString l.

(** The template literal of [content]. *)
Definition upload_message_content (file : UploadedFile) : string :=
  concat_strings
    ["File Added: "; upload_path file; " <boltArtifact id="; double_quote;
     id file; double_quote; " title="; double_quote; upload_path file;
     double_quote; ">"; line_feed;
     "  <boltAction type="; double_quote; "file"; double_quote;
     " filePath="; double_quote; upload_path file; double_quote; ">"; line_feed;
     "    "; upload_content file; line_feed;
     "  "; template_residue; line_feed;
     "</boltArtifact>"].

(** The message made of an upload, at the time [now]. *)
Definition upload_message (now : Z) (file : UploadedFile) : Message :=
  mkMessage (id file) "assistant" (upload_message_content file) now.

(** [newFiles.forEach(file => processedFiles.current.add(file.id))] *)
Definition mark_processed (newFiles : list UploadedFile) (processed : gset string)
    : gset string :=
  foldl (λ s file, {[id file]} ∪ s) processed newFiles.

(** [processNewUploads()], with [date_now n] the value of the [n]-th call
    of [Date.now] and [storeMessageHistory] the outcome of the callback
    on the array it is handed. *)
Definition processNewUploads (date_now : nat → Z)
    (storeMessageHistory : list Message → Result unit)
    (uploadedFiles : list UploadedFile) (h : HookState) : Result unit * HookState :=
  let newFiles := filter (λ file, id file ∉ processedFiles h) uploadedFiles in
  if Nat.eqb (length newFiles) 0 then (Ok tt, h)
  else
    let newMessages :=
      imap (λ i file, upload_message (date_now (clock h + i)%nat) file) newFiles in
    let processed := mark_processed newFiles (processedFiles h) in
    let messages' := messages h ++ newMessages in
    let h1 := mkHook processed messages' (clock h + length newFiles)%nat
                (hook_calls h ++ [StoreMessageHistory messages']) in
    match storeMessageHistory messages' with
    | Ok _ =>
        (Ok tt,
         mkHook processed messages' (clock h + length newFiles)%nat
           (hook_calls h1 ++ [ParseMessages messages' false]))
    | Throw e => (Throw e, h1)
    end.

(** A message without the time it was made at: its id, role and
    content. *)
Definition without_time (m : Message) : string * string * string :=
  (message_id m, role m, message_content m).

(** The hook before its first run, over the messages [l]. *)
Definition initial_hook (l : list Message) : HookState := mkHook ∅ l 0 [].

(** ** Inputs for the runs at the end *)



(** A tree holding a folder below the working directory. *)
Definition folder_tree : FileMap :=
  <["/home/project/src" := Folder]> ∅.

(** The world after a first save of [a.ts], whose content was [old]. *)
Definition saved_once_world : @World sample :=
  snd (@saveFile sample "/home/project/a.ts" "new"
         (sample_world (one_file_tree "a.ts" "old") sample_container)).

(** A save, a batch of events, an upload and an import, in that order. *)
Definition sample_calls : list Call :=
  [CallSaveFile "/home/project/a.ts" "newer";
   CallWatch [[mkEvent change "/home/project/a.ts" (Some [x7a])]];
   CallUploadFile "notes.txt" (Ok "todo");
   CallLoadFromFileSystem [FileEntry "main.ts" (Ok "export {}")]].

(** A source tree with rules of its own, a directory to walk and a
    directory to skip. *)
Definition nested_tree : list FsEntry :=
  [FileEntry ".gitignore"
     (Ok (String.append "*.log" (String.append line_feed "node_modules")));
   DirectoryEntry "src"
     [FileEntry "main.ts" (Ok "export {}");
      FileEntry "debug.log" (Ok "boom");
      DirectoryEntry "lib" [FileEntry "util.ts" (Ok "export const u = 1")]];
   DirectoryEntry "node_modules" [FileEntry "index.js" (Ok "module")]].

(** A source tree with no [.gitignore]. *)
Definition plain_tree : list FsEntry :=
  [FileEntry "error.log" (Ok "boom"); FileEntry "main.ts" (Ok "export {}")].

Definition upload_a : UploadedFile := mkUploadedFile "k3j9" "a.ts" "let a".

Definition upload_b : UploadedFile := mkUploadedFile "x81q" "b.ts" "let b".

(** A clock that ticks once a call, and callbacks that always accept and
    always reject. *)
Definition ticking (n : nat) : Z := 1700000000000 + Z.of_nat n.

Definition accepting_store (l : list Message) : Result unit := Ok tt.

Definition rejecting_store (l : list Message) : Result unit :=
  Throw (HostError "QuotaExceededError").

(** ** Properties *)

Section Properties.

Context `{Platform}.

Implicit Types (w : World) (P K : string) (b : option (list byte)).

(** Unfolds [saveFile] down to the case analysis it performs. *)
Ltac unfold_saveFile :=
  cbv [saveFile try_catch bind get_workdir getFile_content getFile get_store
       ret throw unreachable writeFile setKey modify_store emit].

(** *** The classifier *)

Lemma decodeFileContent_run b :
  ∃ text log, ∀ w,
    decodeFileContent b w
    = (Ok text, mkWorld (store w) (container w) (drawn w) (trace w ++ log))
    ∨ decodeFileContent b w = (Ok text, w) ∧ log = [].
Proof.
  destruct b as [[|x l]|]; simpl.
  - exists "", []; intros w; right; done.
  - unfold try_catch.
    destruct (utf8_decode (x :: l)) as [text|e] eqn:Hd.
    + exists text, []; intros w; right; done.
    + exists "", [ConsoleLog e]; intros w; left; done.
  - exists "", []; intros w; right; done.
Qed.

Lemma classify_run b :
  ∃ r, ∀ w,
    fst (classify b w) = Ok r
    ∧ store (snd (classify b w)) = store w
    ∧ container (snd (classify b w)) = container w
    ∧ drawn (snd (classify b w)) = drawn w
    ∧ ∃ log, trace (snd (classify b w)) = trace w ++ log.
Proof.
  unfold classify.
  destruct (isBinaryFile b) eqn:Hb; simpl.
  - exists (true, ""); intros w; unfold bind, ret; simpl.
    repeat split; exists []; by rewrite app_nil_r.
  - destruct (decodeFileContent_run b) as (text & log & Hrun).
    exists (false, text); intros w; unfold bind, ret.
    destruct (Hrun w) as [-> | [-> ->]]; simpl.
    + repeat split; by exists log.
    + repeat split; exists []; by rewrite app_nil_r.
Qed.

(** C6.  Classification is a function of the buffer alone and leaves the
    store alone: started in any two worlds it yields the same
    [{ isBinary, text }], an [Ok] result whose first part is
    [isBinaryFile] of the buffer; classifying the same buffer a second
    time, after the first, yields that result again; and the store after
    is the store before (the only trace it leaves is the [console.log] of
    a decoding error). *)
Theorem classify_deterministic_pure b w w' :
  fst (classify b w) = fst (classify b w')
  ∧ fst (classify b (snd (classify b w))) = fst (classify b w)
  ∧ (∃ text, fst (classify b w) = Ok (isBinaryFile b, text))
  ∧ store (snd (classify b w)) = store w
  ∧ container (snd (classify b w)) = container w.
Proof.
  destruct (classify_run b) as (r & Hr).
  destruct (Hr w) as (Hw & Hs & Hc & _).
  destruct (Hr w') as (Hw' & _).
  destruct (Hr (snd (classify b w))) as (Hw2 & _).
  split; [congruence|]. split; [congruence|]. split; [|done].
  exists (snd r). rewrite Hw. f_equal.
  revert Hw. unfold classify, bind, ret.
  destruct (isBinaryFile b); simpl.
  - by intros [= <-].
  - destruct (decodeFileContent b w) as [[t|e] w1]; simpl; [|done].
    by intros [= <-].
Qed.

(** C7.  An absent buffer classifies as [{ isBinary: false, text: "" }].
    A zero-length one has the empty text and, for [isBinary], the verdict
    of the sniffer on the empty buffer ([isBinaryFile] guards the absent
    buffer only): it classifies as [{ isBinary: false, text: "" }] when
    the sniffer does not call the empty buffer binary.  A buffer the
    strict decoder rejects decodes to the empty string, the error going
    to the console and the store staying as it was; and
    [#decodeFileContent] returns normally on every buffer. *)
Theorem classify_empty_and_decode_failure w :
  classify None w = (Ok (false, ""), w)
  ∧ classify (Some []) w = (Ok (isBinaryFile (Some []), ""), w)
  ∧ (getEncoding [] 100 ≠ Some binary →
     classify (Some []) w = (Ok (false, ""), w))
  ∧ (∀ (bytes : list byte) (e : Error),
       utf8_decode bytes = Throw e →
       fst (decodeFileContent (Some bytes) w) = Ok ""
       ∧ store (snd (decodeFileContent (Some bytes) w)) = store w)
  ∧ (∀ b, ∃ text, fst (decodeFileContent b w) = Ok text).
Proof.
  split; [done|]. split; [|split; [|split]].
  - unfold classify. by destruct (isBinaryFile (Some [])).
  - intros Hempty. unfold classify, isBinaryFile, convertToBuffer.
    destruct (getEncoding [] 100) as [[]|]; done.
  - intros [|x l] e Hfail; [done|].
    cbn [decodeFileContent]. unfold try_catch. by rewrite Hfail.
  - intros b. destruct (decodeFileContent_run b) as (text & log & Hrun).
    exists text. by destruct (Hrun w) as [-> | [-> _]].
Qed.

(** *** The reconciler, event by event *)

Example sanitizePath_trailing_slash : sanitizePath "/src/" = "/src".
Proof. reflexivity. Qed.

Example sanitizePath_trailing_run : sanitizePath "/src/sub///" = "/src/sub".
Proof. reflexivity. Qed.

Example sanitizePath_inner_slashes : sanitizePath "/src//a.ts" = "/src//a.ts".
Proof. reflexivity. Qed.

Example sanitizePath_root : sanitizePath "/" = "".
Proof. reflexivity. Qed.

(** A sanitized path is left alone by sanitizing it again. *)
Lemma sanitizePath_idempotent P : sanitizePath (sanitizePath P) = sanitizePath P.
Proof.
  induction P as [|c rest IH]; [done|].
  cbn [sanitizePath].
  destruct (sanitizePath rest) as [|c' r] eqn:Hrest.
  - destruct (Ascii.eqb c "/") eqn:Hc; [done|].
    cbn [sanitizePath]. by rewrite Hc.
  - cbn [sanitizePath]. cbn [sanitizePath] in IH.
    destruct (sanitizePath r) as [|c'' r'] eqn:Hr.
    + destruct (Ascii.eqb c' "/"); [done|]. by injection IH as ->.
    + by rewrite IH.
Qed.

Lemma add_dir_run P b w :
  let r := processEvent (mkEvent add_dir P b) w in
  fst r = Ok tt
  ∧ files (store (snd r)) = <[sanitizePath P := Folder]> (files (store w))
  ∧ size (store (snd r)) = size (store w)
  ∧ same_outside_tree w (snd r).
Proof. by cbv [processEvent type path]. Qed.

Lemma file_event_run (t : EventType) P b w :
  t = add_file ∨ t = change →
  let r := processEvent (mkEvent t P b) w in
  fst r = Ok tt
  ∧ (∃ c, fst (classify b w) = Ok c
        ∧ files (store (snd r))
          = <[sanitizePath P := File (snd c) (fst c)]> (files (store w)))
  ∧ size (store (snd r)) = size (store w) + (if decide (t = add_file) then 1 else 0)
  ∧ same_outside_tree w (snd r).
Proof.
  intros Ht r. subst r. destruct (classify_run b) as (c & Hc).
  destruct (Hc w) as (Hr0 & _).
  destruct Ht as [-> | ->]; cbv [processEvent type path buffer]; unfold bind.
  - unfold modify_store; cbn beta iota.
    match goal with |- context [classify b ?w0] => set (w1 := w0) end.
    destruct (Hc w1) as (Hr & Hs & Hk & Hd & _).
    destruct (classify b w1) as [[c'|e] w2]; simpl in *; [|done].
    injection Hr as ->.
    split; [done|]. split; [exists c; by rewrite Hs|].
    split; [by rewrite Hs|]. unfold same_outside_tree; simpl.
    by rewrite Hs, Hk, Hd.
  - destruct (Hc w) as (Hr & Hs & Hk & Hd & _).
    destruct (classify b w) as [[c'|e] w2]; simpl in *; [|done].
    injection Hr as ->.
    split; [done|]. split; [exists c; by rewrite Hs|].
    split; [rewrite Hs; lia|]. unfold same_outside_tree; simpl.
    by rewrite Hs, Hk, Hd.
Qed.

Lemma remove_file_run P b w :
  let r := processEvent (mkEvent remove_file P b) w in
  fst r = Ok tt
  ∧ files (store (snd r)) = delete (sanitizePath P) (files (store w))
  ∧ size (store (snd r)) = size (store w) - 1
  ∧ same_outside_tree w (snd r).
Proof. by cbv [processEvent type path]. Qed.

Lemma update_directory_run P b w :
  processEvent (mkEvent update_directory P b) w = (Ok tt, w).
Proof. reflexivity. Qed.

Lemma setKey_run (key : string) (value : option Dirent) w :
  setKey key value w
  = (Ok tt,
     mkWorld (with_files (match value with
                          | Some d => <[key := d]> (files (store w))
                          | None => delete key (files (store w))
                          end) (store w))
             (container w) (drawn w) (trace w)).
Proof. reflexivity. Qed.

(** The loop of the [remove_dir] arm over a list [l] of names. *)
Lemma cascade_run (sp : string) (l : list string) w :
  let r := for_each l (fun direntPath =>
             if String.prefix sp direntPath
             then setKey direntPath None else ret tt) w in
  fst r = Ok tt
  ∧ (∀ K, files (store (snd r)) !! K
          = if existsb (String.eqb K) l && String.prefix sp K
            then None else files (store w) !! K)
  ∧ size (store (snd r)) = size (store w)
  ∧ same_outside_tree w (snd r).
Proof.
  cbv zeta. revert w. induction l as [|x l IH]; intros w.
  - by cbv.
  - cbn [for_each existsb]. unfold bind.
    destruct (String.prefix sp x) eqn:Hpre.
    + rewrite setKey_run.
      set (w1 := mkWorld _ _ _ _).
      destruct (IH w1) as (Hok & Hf & Hs & Ho).
      split; [done|]. split; [|split; [by rewrite Hs|exact Ho]].
      intros K. rewrite Hf. subst w1; simpl.
      destruct (String.eqb_spec K x) as [->|Hne]; simpl.
      * rewrite Hpre. destruct (existsb _ l); simpl; [done|].
        by rewrite lookup_delete_eq.
      * rewrite lookup_delete_ne by done. done.
    + unfold ret.
      destruct (IH w) as (Hok & Hf & Hs & Ho).
      split; [done|]. split; [|done].
      intros K. rewrite Hf.
      destruct (String.eqb_spec K x) as [->|Hne]; simpl; [|done].
      rewrite Hpre. by rewrite andb_false_r.
Qed.

Lemma remove_dir_run P b w :
  let r := processEvent (mkEvent remove_dir P b) w in
  fst r = Ok tt
  ∧ (∀ K, files (store (snd r)) !! K
          = if String.eqb K (sanitizePath P)
               || existsb (String.eqb K) mapStoreOwnKeys
                  && String.prefix (sanitizePath P) K
            then None else files (store w) !! K)
  ∧ size (store (snd r)) = size (store w)
  ∧ same_outside_tree w (snd r).
Proof.
  cbv zeta. cbv [processEvent type path]. unfold bind.
  rewrite setKey_run.
  set (w1 := mkWorld _ _ _ _).
  destruct (cascade_run (sanitizePath P) mapStoreOwnKeys w1) as (Hok & Hf & Hs & Ho).
  split; [done|]. split; [|split; [by rewrite Hs|exact Ho]].
  intros K. rewrite Hf. subst w1; simpl.
  destruct (String.eqb_spec K (sanitizePath P)) as [->|Hne]; simpl.
  - rewrite lookup_delete_eq. by destruct (_ && _).
  - by rewrite lookup_delete_ne.
Qed.

(** Every event is absorbed, and moves the counter by its kind alone. *)
Lemma processEvent_run (ev : PathWatcherEvent) w :
  fst (processEvent ev w) = Ok tt
  ∧ size (store (snd (processEvent ev w)))
    = size (store w) + counter_delta (type ev)
  ∧ same_outside_tree w (snd (processEvent ev w)).
Proof.
  destruct ev as [t P b]; destruct t; cbn [type counter_delta].
  - destruct (add_dir_run P b w) as (? & _ & ? & ?).
    split; [done|split; [lia|done]].
  - destruct (remove_dir_run P b w) as (? & _ & ? & ?).
    split; [done|split; [lia|done]].
  - destruct (file_event_run add_file P b w) as (? & _ & Hs & ?); [by left|].
    rewrite decide_True in Hs by done. split; [done|split; [lia|done]].
  - destruct (file_event_run change P b w) as (? & _ & Hs & ?); [by right|].
    rewrite decide_False in Hs by done. split; [done|split; [lia|done]].
  - destruct (remove_file_run P b w) as (? & _ & ? & ?).
    split; [done|split; [lia|done]].
  - rewrite update_directory_run. split; [done|split; [simpl; lia|done]].
Qed.

Lemma for_each_app {A} (l1 l2 : list A) (body : A → M unit) w :
  for_each (l1 ++ l2) body w
  = bind (for_each l1 body) (λ _, for_each l2 body) w.
Proof.
  revert w. induction l1 as [|x l1 IH]; intros w; cbn [app for_each].
  - reflexivity.
  - unfold bind. destruct (body x w) as [[[]|e] w1]; [|reflexivity].
    rewrite IH. reflexivity.
Qed.

(** The counter after a run of events is the counter before plus one per
    [add_file] and minus one per [remove_file]. *)
Lemma events_run (l : list PathWatcherEvent) w :
  fst (for_each l processEvent w) = Ok tt
  ∧ size (store (snd (for_each l processEvent w)))
    = size (store w) + foldr (λ ev n, counter_delta (type ev) + n) 0 l
  ∧ same_outside_tree w (snd (for_each l processEvent w)).
Proof.
  revert w. induction l as [|ev l IH]; intros w; cbn [for_each foldr].
  - repeat split; simpl; lia.
  - unfold bind.
    destruct (processEvent_run ev w) as (Hok & Hs & Ho1 & Ho2 & Ho3 & Ho4).
    destruct (processEvent ev w) as [r1 w1]; simpl in *; subst r1.
    destruct (IH w1) as (Hok' & Hs' & Hp1 & Hp2 & Hp3 & Hp4).
    split; [done|]. split; [lia|].
    unfold same_outside_tree. by rewrite Hp1, Hp2, Hp3, Hp4.
Qed.

(** *** Directory removal *)

(** C1.  What [remove_dir] for [P] does to the other keys: a key [K]
    other than the sanitized [P] keeps its entry unless [K] is the name of
    a member of the store object, because the cascade of the [remove_dir]
    arm enumerates [Object.entries(this.files)], the store object, and not
    the tree [this.files.get()].  So an entry below [P] stays present,
    where the claim has it removed; the key [P] itself becomes absent. *)
Theorem remove_dir_keeps_entries_below P K b w :
  K ≠ sanitizePath P →
  K ∉ mapStoreOwnKeys →
  files (store (snd (processEvent (mkEvent remove_dir P b) w))) !! K
  = files (store w) !! K
  ∧ files (store (snd (processEvent (mkEvent remove_dir P b) w)))
      !! sanitizePath P = None.
Proof.
  intros Hne Hnot.
  destruct (remove_dir_run P b w) as (_ & Hf & _).
  rewrite !Hf. split.
  - destruct (String.eqb_spec K (sanitizePath P)) as [->|_]; [done|].
    assert (existsb (String.eqb K) mapStoreOwnKeys = false) as ->; [|done].
    apply not_true_is_false. intros (x & Hin & Hx)%existsb_exists.
    apply String.eqb_eq in Hx as <-. by apply Hnot, list_elem_of_In.
  - by rewrite String.eqb_refl.
Qed.

(** C2, as the code has it.  After the batch of the scenario, run from the
    empty store, the key [/src] is absent and the counter is 2: each of
    the two [add_file] events added one, and [remove_dir] does not touch
    the counter. *)
Theorem scenario_batch_counter (c : Container) :
  fst (processEventBuffer scenario_batch (initial_world c)) = Ok tt
  ∧ files (store (snd (processEventBuffer scenario_batch (initial_world c))))
      !! "/src" = None
  ∧ size (store (snd (processEventBuffer scenario_batch (initial_world c)))) = 2.
Proof.
  unfold processEventBuffer, scenario_batch. cbn [concat app].
  match goal with |- context [for_each ?l _ _] => set (batch := l) end.
  destruct (events_run batch (initial_world c)) as (Hok & Hs & _).
  split; [done|]. split; [|by rewrite Hs].
  subst batch.
  change [mkEvent add_dir "/src" None; mkEvent add_file "/src/a.ts" (Some [x78]);
          mkEvent add_dir "/src/sub" None;
          mkEvent add_file "/src/sub/b.ts" (Some [x79]);
          mkEvent remove_dir "/src" None]
    with ([mkEvent add_dir "/src" None; mkEvent add_file "/src/a.ts" (Some [x78]);
           mkEvent add_dir "/src/sub" None;
           mkEvent add_file "/src/sub/b.ts" (Some [x79])]
          ++ [mkEvent remove_dir "/src" None]).
  rewrite for_each_app. unfold bind.
  match goal with |- context [for_each ?l _ ?w0] =>
    destruct (events_run l w0) as (Hok1 & _);
    destruct (for_each l processEvent w0) as [r1 w1]
  end.
  simpl in Hok1; subst r1. cbn [for_each]. unfold bind.
  destruct (remove_dir_run "/src" None w1) as (Hok2 & Hf & _).
  destruct (processEvent (mkEvent remove_dir "/src" None) w1) as [r2 w2].
  simpl in Hok2; subst r2. simpl in *. rewrite Hf. done.
Qed.

(** *** A file added, changed and removed *)


(** C10.  [remove_file] takes one off the counter in every store, whether
    or not the path is a key of the tree; a single [remove_file] on the
    empty store leaves [filesCount] at -1. *)
Theorem remove_file_decrements_regardless P b w :
  size (store (snd (processEvent (mkEvent remove_file P b) w)))
  = size (store w) - 1
  ∧ (∀ c : Container,
       let r := processEventBuffer [[mkEvent remove_file P b]] (initial_world c) in
       fst r = Ok tt
       ∧ files (store (initial_world c)) !! sanitizePath P = None
       ∧ fst (filesCount (snd r)) = Ok (-1)
       ∧ size (store (snd r)) < 0).
Proof.
  split.
  - by destruct (remove_file_run P b w) as (_ & _ & ? & _).
  - intros c. cbv zeta. unfold processEventBuffer. cbn [concat app for_each].
    unfold bind.
    destruct (remove_file_run P b (initial_world c)) as (Hok & _ & Hs & _).
    destruct (processEvent (mkEvent remove_file P b) (initial_world c)) as [r1 w1].
    simpl in *; subst r1. simpl.
    split; [done|]. split; [done|]. unfold filesCount, bind, get_store, ret.
    simpl. rewrite Hs. split; [done|lia].
Qed.

(** *** The direct write path *)

Lemma is_empty_false (s : string) : s ≠ "" → is_empty s = false.
Proof. by destruct s. Qed.

(** [saveFile] on a path whose relative form is empty: the guard of
    [saveFile] raises [EINVAL] before the tree is consulted. *)
Lemma saveFile_empty_relative_path P content w :
  path_relative (workdir (container w)) P = "" →
  saveFile P content w
  = (Throw (EINVAL ""),
     mkWorld (store w) (container w) (drawn w)
       (trace w ++ [LoggerError update_failed (EINVAL "")])).
Proof. intros Hrel. unfold_saveFile. by rewrite Hrel. Qed.

(** C5, as the code has it.  Let the entry of [P] be a file whose content
    is the empty string.  When [P] resolves to a non-empty relative path,
    [saveFile] raises the error of [unreachable]: nothing is written to
    the container, and the store (the tree and the ledger with it) is as
    before; the failure is logged.  When the relative path is empty, the
    guard before the lookup raises [EINVAL] instead, the store again as
    before. *)
Theorem saveFile_empty_content_unreachable P (isBinary : bool) content w :
  files (store w) !! P = Some (File "" isBinary) →
  (path_relative (workdir (container w)) P ≠ "" →
   saveFile P content w
   = (Throw (UnreachableError "Expected content to be defined"),
      mkWorld (store w) (container w) (drawn w)
        (trace w ++ [LoggerError update_failed
                       (UnreachableError "Expected content to be defined")])))
  ∧ (path_relative (workdir (container w)) P = "" →
     saveFile P content w
     = (Throw (EINVAL ""),
        mkWorld (store w) (container w) (drawn w)
          (trace w ++ [LoggerError update_failed (EINVAL "")]))).
Proof.
  intros Hfile. split.
  - intros Hrel%is_empty_false. unfold_saveFile. by rewrite Hrel, Hfile.
  - apply saveFile_empty_relative_path.
Qed.

(** However [saveFile] fails, the store is as it was. *)
Lemma saveFile_failure_keeps_store P content (e : Error) w :
  fst (saveFile P content w) = Throw e →
  store (snd (saveFile P content w)) = store w.
Proof.
  unfold_saveFile.
  destruct (is_empty (path_relative _ P)); [done|].
  destruct (files (store w) !! P) as [[old ?|]|]; simpl; try done.
  destruct (is_empty old); [done|]. simpl.
  destruct (fs_writeFile _ _ _) as [[[]|err] c']; simpl; [|done].
  by destruct (decide _).
Qed.

(** C9.  Let the entry of [P] be a file with non-empty content.  When the
    call of the container's [writeFile] is made (the relative path is not
    empty) and rejected with [e], [saveFile] rejects with [e] after that
    one call, and the store is as before: the entry of [P] in the tree
    and the entry of [P] in the ledger are what they were. *)
Theorem saveFile_write_failure_is_atomic
    P (old : string) (isBinary : bool) content (e : Error) w :
  files (store w) !! P = Some (File old isBinary) →
  old ≠ "" →
  path_relative (workdir (container w)) P ≠ "" →
  fst (fs_writeFile (path_relative (workdir (container w)) P) content
         (container w)) = Throw e →
  fst (saveFile P content w) = Throw e
  ∧ store (snd (saveFile P content w)) = store w
  ∧ files (store (snd (saveFile P content w))) !! P = Some (File old isBinary)
  ∧ modifiedFiles (store (snd (saveFile P content w))) !! P
    = modifiedFiles (store w) !! P
  ∧ trace (snd (saveFile P content w))
    = trace w
      ++ [FsWriteFile (path_relative (workdir (container w)) P) content;
          LoggerError update_failed e].
Proof.
  intros Hfile Hold%is_empty_false Hrel%is_empty_false Hfail.
  assert (fst (saveFile P content w) = Throw e
          ∧ trace (snd (saveFile P content w))
            = trace w
              ++ [FsWriteFile (path_relative (workdir (container w)) P) content;
                  LoggerError update_failed e])
    as (Hthrow & Htrace).
  { unfold_saveFile. rewrite Hrel, Hfile, Hold. simpl.
    destruct (fs_writeFile _ _ _) as [r c']. simpl in Hfail; subst r. simpl.
    by rewrite <- app_assoc. }
  pose proof (saveFile_failure_keeps_store P content e w Hthrow) as Hstore.
  rewrite Hstore. done.
Qed.

(** The ledger never loses or changes an original it holds: whatever
    [saveFile] does, and however it ends, an entry recorded before is the
    entry recorded after. *)
Lemma saveFile_keeps_recorded_originals P content (Q original : string) w :
  modifiedFiles (store w) !! Q = Some original →
  modifiedFiles (store (snd (saveFile P content w))) !! Q = Some original.
Proof.
  intros Hrec. unfold_saveFile.
  destruct (is_empty (path_relative _ P)); [done|].
  destruct (files (store w) !! P) as [[old ?|]|]; simpl; try done.
  destruct (is_empty old); [done|]. simpl.
  destruct (fs_writeFile _ _ _) as [[[]|e] c']; simpl; [|done].
  destruct (decide (is_Some (modifiedFiles (store w) !! P))) as [|Hnone];
    simpl; [done|].
  rewrite lookup_insert_ne; [done|].
  intros ->. apply Hnone. by rewrite Hrec.
Qed.

(** When [saveFile] succeeds, and why: the relative path and the old
    content are not empty and the container accepts the write. *)
Lemma saveFile_succeeds P (old : string) (isBinary : bool) content w :
  files (store w) !! P = Some (File old isBinary) →
  old ≠ "" →
  path_relative (workdir (container w)) P ≠ "" →
  fst (fs_writeFile (path_relative (workdir (container w)) P) content
         (container w)) = Ok tt →
  fst (saveFile P content w) = Ok tt.
Proof.
  intros Hfile Hold%is_empty_false Hrel%is_empty_false Hwrite.
  unfold_saveFile. rewrite Hrel, Hfile, Hold. simpl.
  destruct (fs_writeFile _ _ _) as [r c']. simpl in Hwrite; subst r. simpl.
  by destruct (decide _).
Qed.

(** What a successful [saveFile] has done. *)
Lemma saveFile_success_run P content w :
  fst (saveFile P content w) = Ok tt →
  ∃ (old : string) (isBinary : bool),
    files (store w) !! P = Some (File old isBinary)
    ∧ old ≠ ""
    ∧ path_relative (workdir (container w)) P ≠ ""
    ∧ files (store (snd (saveFile P content w))) !! P
      = Some (File content false)
    ∧ modifiedFiles (store (snd (saveFile P content w))) !! P
      = Some (default old (modifiedFiles (store w) !! P))
    ∧ trace (snd (saveFile P content w))
      = trace w
        ++ [FsWriteFile (path_relative (workdir (container w)) P) content;
            LoggerInfo "File updated"].
Proof.
  unfold_saveFile.
  destruct (is_empty (path_relative _ P)) eqn:Hrel; [done|].
  destruct (files (store w) !! P) as [[old isBinary|]|]; simpl; try done.
  destruct (is_empty old) eqn:Hold; [done|]. simpl.
  destruct (fs_writeFile _ _ _) as [[[]|e] c']; simpl; [|done].
  intros _. exists old, isBinary.
  split; [done|]. split; [by intros ->|]. split; [by intros Hr; rewrite Hr in Hrel|].
  destruct (decide (is_Some (modifiedFiles (store w) !! P))) as [[o Ho]|Hnone];
    simpl; rewrite !lookup_insert_eq, <- app_assoc.
  - by rewrite Ho.
  - destruct (modifiedFiles (store w) !! P) eqn:Ho; [|done].
    by destruct Hnone.
Qed.

(** [resetFileModifications] empties the ledger and nothing else; the
    next successful [saveFile] records the content it finds. *)
Lemma resetFileModifications_then_saveFile P content w :
  let w0 := snd (resetFileModifications w) in
  modifiedFiles (store w0) = ∅
  ∧ files (store w0) = files (store w)
  ∧ (fst (saveFile P content w0) = Ok tt →
     ∃ (old : string) (isBinary : bool),
       files (store w) !! P = Some (File old isBinary)
       ∧ modifiedFiles (store (snd (saveFile P content w0))) !! P = Some old).
Proof.
  cbv zeta. split; [done|]. split; [done|]. intros Hok.
  destruct (saveFile_success_run P content _ Hok)
    as (old & isBinary & Hfile & _ & _ & _ & Hledger & _).
  exists old, isBinary. split; [done|].
  rewrite Hledger. simpl. by rewrite lookup_empty.
Qed.

(** C4.  Let the entry of [P] be a file with non-empty content [old], with
    no original recorded for [P] yet.  A [saveFile P new] that succeeds
    records [old] as the original of [P], sets the entry of [P] to
    [File new false], and issues one call of the container, the write of
    [new] to the relative path.  A second successful [saveFile P newer]
    leaves the recorded original at [old]. *)
Theorem saveFile_records_original_once
    P (old : string) (isBinary : bool) (new newer : string) w :
  files (store w) !! P = Some (File old isBinary) →
  old ≠ "" →
  modifiedFiles (store w) !! P = None →
  fst (saveFile P new w) = Ok tt →
  let w1 := snd (saveFile P new w) in
  modifiedFiles (store w1) !! P = Some old
  ∧ files (store w1) !! P = Some (File new false)
  ∧ trace w1
    = trace w ++ [FsWriteFile (path_relative (workdir (container w)) P) new;
                  LoggerInfo "File updated"]
  ∧ (fst (saveFile P newer w1) = Ok tt →
     modifiedFiles (store (snd (saveFile P newer w1))) !! P = Some old
     ∧ files (store (snd (saveFile P newer w1))) !! P = Some (File newer false)).
Proof.
  intros Hfile Hold Hnone Hok. cbv zeta.
  destruct (saveFile_success_run P new w Hok)
    as (old' & isBinary' & Hfile' & _ & _ & Htree & Hledger & Htrace).
  rewrite Hfile in Hfile'. injection Hfile' as <- <-.
  rewrite Hnone in Hledger. simpl in Hledger.
  split; [done|]. split; [done|]. split; [done|].
  intros Hok2. split.
  - by apply saveFile_keeps_recorded_originals.
  - by destruct (saveFile_success_run P newer _ Hok2) as (? & ? & _ & _ & _ & ? & _).
Qed.

(** *** Bulk import *)

Lemma processEntry_ignored (ig : Ignore) (currentPath : string) (e : FsEntry) w :
  ignores ig (entryPath_of currentPath (entry_name e)) = true →
  processEntry ig currentPath e w = (Ok tt, w).
Proof. intros Hig. destruct e; cbn [processEntry]; by rewrite Hig. Qed.

(** The directory arm, with its loop written as [for_each]. *)
Lemma processEntry_directory (ig : Ignore) (currentPath n : string)
    (entries : list FsEntry) w :
  processEntry ig currentPath (DirectoryEntry n entries) w
  = (if ignores ig (entryPath_of currentPath n) then ret tt
     else bind (mkdir (entryPath_of currentPath n))
            (λ _, for_each entries (processEntry ig (entryPath_of currentPath n)))) w.
Proof.
  cbn [processEntry entry_name].
  destruct (ignores ig _); [done|].
  unfold bind. destruct (mkdir _ w) as [[[]|e] w1]; [|done].
  generalize w1. clear.
  induction entries as [|e es IH]; intros w; [done|].
  cbn [for_each]. unfold bind.
  destruct (processEntry ig _ e w) as [[[]|err] w2]; [|done].
  apply IH.
Qed.

Lemma import_extends_refl (ig : Ignore) w : import_extends ig w w.
Proof. exists [], []. by rewrite !app_nil_r. Qed.

Lemma import_extends_trans (ig : Ignore) w1 w2 w3 :
  import_extends ig w1 w2 → import_extends ig w2 w3 → import_extends ig w1 w3.
Proof.
  intros (t1 & u1 & Ht1 & Hu1 & Ft1 & Fu1) (t2 & u2 & Ht2 & Hu2 & Ft2 & Fu2).
  exists (t1 ++ t2), (u1 ++ u2).
  rewrite Ht2, Hu2, Ht1, Hu1, <- !app_assoc.
  repeat split; by apply Forall_app.
Qed.

Lemma for_each_extends (ig : Ignore) (body : FsEntry → M unit) (es : list FsEntry) :
  Forall (λ e, ∀ w, import_extends ig w (snd (body e w))) es →
  ∀ w, import_extends ig w (snd (for_each es body w)).
Proof.
  induction 1 as [|e es He _ IH]; intros w; cbn [for_each].
  - apply import_extends_refl.
  - unfold bind. specialize (He w).
    destruct (body e w) as [[[]|err] w1]; [|done].
    eapply import_extends_trans; [exact He|apply IH].
Qed.

Lemma mkdir_extends (ig : Ignore) (p : string) w :
  import_extends ig w (snd (mkdir p w)).
Proof.
  unfold mkdir. destruct (fs_mkdir _ _) as [r c]. simpl.
  exists [FsMkdir p], []. rewrite app_nil_r.
  repeat split; by repeat constructor.
Qed.

(** No turn of the loop writes or records a path the rules match. *)
Lemma processEntry_extends (ig : Ignore) (e : FsEntry) :
  ∀ (currentPath : string) w,
    import_extends ig w (snd (processEntry ig currentPath e w)).
Proof.
  induction e as [n text|n entries IH] using FsEntry_nested_ind;
    intros currentPath w.
  - cbn [processEntry entry_name].
    destruct (ignores ig _) eqn:Hig; [apply import_extends_refl|].
    set (p := entryPath_of currentPath n) in *.
    unfold bind at 1. unfold settle.
    destruct text as [text|err]; [|apply import_extends_refl].
    assert (∀ w0, import_extends ig w0
              (snd (bind (writeFile p text) (λ _,
                 modify_store (λ s, with_uploadedFiles
                   (uploadedFiles s ++ [mkUploadedFile (random_id (drawn w)) p text]) s))
                 w0))) as Hwrite.
    { intros w0. unfold bind, writeFile, modify_store.
      destruct (fs_writeFile _ _ _) as [[[]|err] c]; simpl.
      - exists [FsWriteFile p text], [mkUploadedFile (random_id (drawn w)) p text].
        repeat split; by repeat constructor.
      - exists [FsWriteFile p text], []. rewrite app_nil_r.
        repeat split; by repeat constructor. }
    unfold bind at 1. unfold fresh_id. unfold bind at 1.
    destruct (String.eqb (path_dirname p) ".").
    + unfold ret. eapply import_extends_trans; [|apply Hwrite].
      exists [], []. simpl. by rewrite !app_nil_r.
    + pose proof (mkdir_extends ig (path_dirname p)
                    (mkWorld (store w) (container w) (S (drawn w)) (trace w))) as Hm.
      destruct (mkdir _ _) as [[[]|err] w1].
      * eapply import_extends_trans; [|apply Hwrite].
        eapply import_extends_trans; [|exact Hm].
        exists [], []. simpl. by rewrite !app_nil_r.
      * eapply import_extends_trans; [|exact Hm].
        exists [], []. simpl. by rewrite !app_nil_r.
  - rewrite processEntry_directory.
    destruct (ignores ig _); [apply import_extends_refl|].
    unfold bind.
    pose proof (mkdir_extends ig (entryPath_of currentPath n) w) as Hm.
    destruct (mkdir _ w) as [[[]|err] w1]; [|done].
    eapply import_extends_trans; [exact Hm|].
    apply for_each_extends.
    eapply Forall_impl; [exact IH|]. by intros e He w0.
Qed.

Lemma import_extends_keeps (ig : Ignore) w w' :
  import_extends ig w w' →
  (∀ e, e ∈ trace w → e ∈ trace w')
  ∧ (∀ u, u ∈ uploadedFiles (store w) → u ∈ uploadedFiles (store w')).
Proof.
  intros (t & u & -> & -> & _). split; intros x Hx; apply elem_of_app; by left.
Qed.

Section Accepting.

Variable healthy : Container → Prop.
Hypothesis Haccepts : container_accepts healthy.
Variable ig : Ignore.

Lemma writeFile_accepted (p text : string) w :
  healthy (container w) →
  fst (writeFile p text w) = Ok tt
  ∧ healthy (container (snd (writeFile p text w)))
  ∧ store (snd (writeFile p text w)) = store w
  ∧ trace (snd (writeFile p text w)) = trace w ++ [FsWriteFile p text].
Proof.
  intros Hc. unfold writeFile. simpl.
  destruct (Haccepts _ Hc) as (Hw & _). destruct (Hw p text) as (Hok & Hh).
  destruct (fs_writeFile p text (container w)) as [r c]; simpl in *. done.
Qed.

Lemma mkdir_accepted (p : string) w :
  healthy (container w) →
  fst (mkdir p w) = Ok tt
  ∧ healthy (container (snd (mkdir p w)))
  ∧ store (snd (mkdir p w)) = store w.
Proof.
  intros Hc. unfold mkdir. simpl.
  destruct (Haccepts _ Hc) as (_ & Hm). destruct (Hm p) as (Hok & Hh).
  destruct (fs_mkdir p (container w)) as [r c]; simpl in *. done.
Qed.

(** A file the rules do not match is written and recorded. *)
Lemma processEntry_file_imported (currentPath n text : string) w :
  healthy (container w) →
  ignores ig (entryPath_of currentPath n) = false →
  ∃ w',
    processEntry ig currentPath (FileEntry n (Ok text)) w = (Ok tt, w')
    ∧ healthy (container w')
    ∧ FsWriteFile (entryPath_of currentPath n) text ∈ trace w'
    ∧ mkUploadedFile (random_id (drawn w)) (entryPath_of currentPath n) text
        ∈ uploadedFiles (store w').
Proof.
  intros Hc Hig. cbn [processEntry entry_name]. rewrite Hig.
  set (p := entryPath_of currentPath n).
  unfold bind, settle, fresh_id.
  set (w0 := mkWorld _ _ (S (drawn w)) _).
  assert (∃ w1, (if String.eqb (path_dirname p) "." then ret tt
                 else mkdir (path_dirname p)) w0 = (Ok tt, w1)
                ∧ healthy (container w1)) as (w1 & -> & Hc1).
  { destruct (String.eqb _ _).
    - by exists w0.
    - destruct (mkdir_accepted (path_dirname p) w0 Hc) as (Hok & Hh & _).
      destruct (mkdir _ w0) as [r w1]; simpl in *; subst r. by exists w1. }
  destruct (writeFile_accepted p text w1 Hc1) as (Hok & Hh & Hs & Ht).
  destruct (writeFile p text w1) as [r w2]; simpl in *; subst r.
  unfold modify_store. eexists; split; [reflexivity|]; simpl.
  split; [done|]. split.
  - rewrite Ht. apply elem_of_app; right. by apply list_elem_of_singleton.
  - apply elem_of_app; right. by apply list_elem_of_singleton.
Qed.

(** With an accepting container, a turn of the loop for an entry whose
    files can all be read returns. *)
Lemma processEntry_ok (e : FsEntry) :
  ∀ (currentPath : string) w,
    readable e = true →
    healthy (container w) →
    fst (processEntry ig currentPath e w) = Ok tt
    ∧ healthy (container (snd (processEntry ig currentPath e w))).
Proof.
  induction e as [n text|n entries IH] using FsEntry_nested_ind;
    intros currentPath w Hread Hc.
  - destruct (ignores ig (entryPath_of currentPath n)) eqn:Hig.
    + by rewrite processEntry_ignored.
    + destruct text as [text|err]; [|done].
      by destruct (processEntry_file_imported currentPath n text w Hc Hig)
        as (w' & -> & ? & _).
  - rewrite processEntry_directory.
    destruct (ignores ig _); [done|]. unfold bind.
    destruct (mkdir_accepted (entryPath_of currentPath n) w Hc) as (Hok & Hh & _).
    destruct (mkdir _ w) as [r w1]; simpl in *; subst r.
    revert w1 Hh. induction IH as [|e es He _ IHes]; intros w1 Hh; [done|].
    cbn [forallb] in Hread. apply andb_prop in Hread as [Hre Hres].
    cbn [for_each]. unfold bind.
    destruct (He (entryPath_of currentPath n) w1 Hre Hh) as (Hok1 & Hh1).
    destruct (processEntry ig _ e w1) as [r w2]; simpl in *; subst r.
    by apply IHes.
Qed.

(** With an accepting container and a tree whose files can all be read,
    every file of the root directory that the rules do not match is
    written and recorded. *)
Lemma root_file_imported (handle : list FsEntry) (n text : string) w :
  forallb readable handle = true →
  healthy (container w) →
  FileEntry n (Ok text) ∈ handle →
  ignores ig n = false →
  fst (processDirectory ig handle "" w) = Ok tt
  ∧ FsWriteFile n text ∈ trace (snd (processDirectory ig handle "" w))
  ∧ ∃ id, mkUploadedFile id n text
            ∈ uploadedFiles (store (snd (processDirectory ig handle "" w))).
Proof.
  unfold processDirectory. intros Hread Hc Hin Hig. revert w Hc.
  induction handle as [|e es IH]; intros w Hc; [by apply elem_of_nil in Hin|].
  cbn [forallb] in Hread. apply andb_prop in Hread as [Hre Hres].
  cbn [for_each]. unfold bind.
  apply elem_of_cons in Hin as [<-|Hin].
  - destruct (processEntry_file_imported "" n text w Hc Hig)
      as (w1 & -> & Hh & Hw & Hu). simpl in Hw, Hu.
    assert (fst (for_each es (processEntry ig "") w1) = Ok tt) as Hrest.
    { clear -Hh Haccepts Hres. revert w1 Hh.
      induction es as [|e es IHes]; intros w1 Hh; [done|].
      cbn [forallb] in Hres. apply andb_prop in Hres as [Hre Hres].
      cbn [for_each]. unfold bind.
      destruct (processEntry_ok e "" w1 Hre Hh) as (Hok1 & Hh1).
      destruct (processEntry ig "" e w1) as [r w2]; simpl in *; subst r.
      by apply IHes. }
    destruct (import_extends_keeps ig w1 (snd (for_each es (processEntry ig "") w1)))
      as (Ht & Hups).
    { apply for_each_extends. apply Forall_forall. intros e _ w0.
      apply processEntry_extends. }
    split; [done|]. split; [by apply Ht|]. eexists. by apply Hups.
  - destruct (processEntry_ok e "" w Hre Hc) as (Hok1 & Hh1).
    destruct (processEntry ig "" e w) as [r w1]; simpl in *; subst r.
    by apply IH.
Qed.

End Accepting.

(** What [import_extends] says of a path the rules match: a write or a
    record of it found afterwards was there before. *)
Lemma import_extends_excludes (ig : Ignore) w w' (p : string) :
  import_extends ig w w' →
  ignores ig p = true →
  (∀ text, FsWriteFile p text ∈ trace w' → FsWriteFile p text ∈ trace w)
  ∧ (∀ u, u ∈ uploadedFiles (store w') → upload_path u = p →
          u ∈ uploadedFiles (store w)).
Proof.
  intros (effects & uploads & -> & -> & Fe & Fu) Hig. split.
  - intros text [Hin|Hin]%elem_of_app; [done|].
    rewrite Forall_forall in Fe. apply Fe in Hin. simpl in Hin. congruence.
  - intros u [Hin|Hin]%elem_of_app Hp; [done|].
    rewrite Forall_forall in Fu. apply Fu in Hin. congruence.
Qed.

Lemma loadFromFileSystem_extends (sourceHandle : list FsEntry) w :
  import_extends (load_ignore sourceHandle) w
    (snd (loadFromFileSystem sourceHandle w)).
Proof.
  unfold loadFromFileSystem, processDirectory.
  apply for_each_extends, Forall_forall. intros e _ w0.
  apply processEntry_extends.
Qed.

(** C8.  When the root of the source tree holds a file [.gitignore], the
    rules of the import are that file's text; a turn of the loop for an
    entry whose path the rules match does nothing at all, so the entry is
    not entered either; and over the whole import no path the rules match
    is written to the container or recorded in the upload log.  In the
    scenario (a root with [.gitignore] holding [*.log], [error.log] and
    [main.ts], a matcher for which [*.log] matches [error.log] and not
    [main.ts], a container that accepts its calls) the import returns,
    [main.ts] is written and recorded, [error.log] is neither. *)
Theorem gitignore_rules_exclude :
  (∀ (sourceHandle : list FsEntry) (content : string),
     getFileHandle_text sourceHandle ".gitignore" = Ok content →
     load_ignore sourceHandle = ignore_add_text content ignore_new
     ∧ (∀ (currentPath : string) (e : FsEntry) w,
          ignores (ignore_add_text content ignore_new)
            (entryPath_of currentPath (entry_name e)) = true →
          processEntry (load_ignore sourceHandle) currentPath e w = (Ok tt, w))
     ∧ (∀ w (p : string),
          ignores (ignore_add_text content ignore_new) p = true →
          (∀ text,
             FsWriteFile p text ∈ trace (snd (loadFromFileSystem sourceHandle w)) →
             FsWriteFile p text ∈ trace w)
          ∧ (∀ u,
               u ∈ uploadedFiles (store (snd (loadFromFileSystem sourceHandle w))) →
               upload_path u = p →
               u ∈ uploadedFiles (store w))))
  ∧ (∀ (healthy : Container → Prop) (log_text main_text : string) (c : Container),
       container_accepts healthy →
       healthy c →
       ignores (ignore_add_text "*.log" ignore_new) "error.log" = true →
       ignores (ignore_add_text "*.log" ignore_new) "main.ts" = false →
       let r := loadFromFileSystem (scenario_tree log_text main_text)
                  (initial_world c) in
       fst r = Ok tt
       ∧ FsWriteFile "main.ts" main_text ∈ trace (snd r)
       ∧ (∃ id, mkUploadedFile id "main.ts" main_text
                  ∈ uploadedFiles (store (snd r)))
       ∧ (∀ text, FsWriteFile "error.log" text ∉ trace (snd r))
       ∧ (∀ u, u ∈ uploadedFiles (store (snd r)) →
               upload_path u ≠ "error.log")).
Proof.
  split.
  - intros sourceHandle content Hgit.
    assert (load_ignore sourceHandle = ignore_add_text content ignore_new) as Hig.
    { unfold load_ignore. by rewrite Hgit. }
    split; [done|]. split.
    + intros currentPath e w Hm. apply processEntry_ignored. by rewrite Hig.
    + intros w p Hm. eapply import_extends_excludes; [|exact Hm].
      rewrite <- Hig. apply loadFromFileSystem_extends.
  - intros healthy log_text main_text c Hacc Hc Hlog Hmain. cbv zeta.
    assert (load_ignore (scenario_tree log_text main_text)
            = ignore_add_text "*.log" ignore_new) as Hig by reflexivity.
    destruct (root_file_imported healthy Hacc (ignore_add_text "*.log" ignore_new)
                (scenario_tree log_text main_text) "main.ts" main_text
                (initial_world c) eq_refl Hc) as (Hok & Hw & Hu); [|done|].
    { unfold scenario_tree. rewrite !elem_of_cons. auto. }
    destruct (import_extends_excludes _ _ _ "error.log"
                (loadFromFileSystem_extends (scenario_tree log_text main_text)
                   (initial_world c))) as (Hnw & Hnu); [by rewrite Hig|].
    unfold loadFromFileSystem. rewrite Hig.
    split; [done|]. split; [done|]. split; [done|]. split.
    + intros text Hin. apply Hnw in Hin. by apply elem_of_nil in Hin.
    + intros u Hin Hp. apply (Hnu u) in Hin; [|done]. by apply elem_of_nil in Hin.
Qed.

End Properties.

(** ** The rest of the store *)

Section Coverage.

Context `{Platform}.

Implicit Types (w : World) (P K : string) (b : option (list byte)).

(** Unfolds [saveFile] down to the case analysis it performs. *)
Ltac run_saveFile :=
  cbv [saveFile try_catch bind get_workdir getFile_content getFile get_store
       ret throw unreachable writeFile setKey modify_store emit].

(** *** Watch events *)

Lemma decodeFileContent_cases b w :
  (∃ text, decodeFileContent b w = (Ok text, w)
           ∧ match b with
             | Some (x :: l) => utf8_decode (x :: l) = Ok text
             | _ => text = ""
             end)
  ∨ (∃ (bytes : list byte) (e : Error),
       b = Some bytes ∧ utf8_decode bytes = Throw e
       ∧ decodeFileContent b w = (Ok "", log_more [ConsoleLog e] w)).
Proof.
  destruct b as [[|x l]|]; cbn [decodeFileContent].
  - left. by exists "".
  - unfold try_catch. destruct (utf8_decode (x :: l)) as [text|e] eqn:Hd.
    + left. by exists text.
    + right. by exists (x :: l), e.
  - left. by exists "".
Qed.

Lemma classify_cases b w :
  (∃ text, classify b w = (Ok (isBinaryFile b, text), w))
  ∨ (∃ e, classify b w = (Ok (false, ""), log_more [ConsoleLog e] w)).
Proof.
  unfold classify. destruct (isBinaryFile b) eqn:Hb; cbn [negb].
  - left. by exists "".
  - unfold bind.
    destruct (decodeFileContent_cases b w) as [(text & -> & _)|(l & e & _ & _ & ->)].
    + left. by exists text.
    + right. by exists e.
Qed.

Lemma cascade_trace (sp : string) (l : list string) w :
  trace (snd (for_each l (λ direntPath,
                 if String.prefix sp direntPath
                 then setKey direntPath None else ret tt) w))
  = trace w.
Proof.
  revert w. induction l as [|x l IH]; intros w; [done|].
  cbn [for_each]. unfold bind.
  destruct (String.prefix sp x).
  - rewrite setKey_run. by rewrite IH.
  - unfold ret. by rewrite IH.
Qed.

(** One event adds at most one line to the console and nothing else to
    the trace. *)
Lemma processEvent_trace (ev : PathWatcherEvent) w :
  ∃ log, trace (snd (processEvent ev w)) = trace w ++ log
         ∧ Forall is_console_log log ∧ (length log ≤ 1)%nat.
Proof.
  assert (∀ w0 (k : bool * string → M unit),
            (∀ c w1, trace (snd (k c w1)) = trace w1) →
            ∃ log, trace (snd (bind (classify (buffer ev)) k w0)) = trace w0 ++ log
                   ∧ Forall is_console_log log ∧ (length log ≤ 1)%nat) as Hfile.
  { intros w0 k Hk. unfold bind.
    destruct (classify_cases (buffer ev) w0) as [(text & ->)|(e & ->)].
    - exists []. rewrite Hk, app_nil_r. repeat split; [constructor|simpl; lia].
    - exists [ConsoleLog e]. rewrite Hk. simpl.
      repeat split; [by repeat constructor|lia]. }
  destruct ev as [t P b]. destruct t; cbv [processEvent type path].
  - exists []. simpl. rewrite app_nil_r. repeat split; [constructor|lia].
  - exists []. rewrite app_nil_r. split; [|split; [constructor|simpl; lia]].
    unfold bind. rewrite setKey_run. by rewrite cascade_trace.
  - unfold bind at 1. unfold modify_store at 1. cbn beta iota.
    apply (Hfile (mkWorld _ _ _ _)). by intros.
  - apply Hfile. by intros.
  - exists []. simpl. rewrite app_nil_r. repeat split; [constructor|lia].
  - exists []. simpl. rewrite app_nil_r. repeat split; [constructor|lia].
Qed.

(** X1.  A batch of watch events is always absorbed; it changes neither
    the ledger nor the upload log, leaves the container and the random
    source as they were, and issues nothing but lines of [console.log],
    at most one per event (the decoding errors). *)
Theorem watch_events_stay_inside (events : list (list PathWatcherEvent)) w :
  fst (processEventBuffer events w) = Ok tt
  ∧ same_outside_tree w (snd (processEventBuffer events w))
  ∧ ∃ log, trace (snd (processEventBuffer events w)) = trace w ++ log
           ∧ Forall is_console_log log
           ∧ (length log ≤ length (concat events))%nat.
Proof.
  unfold processEventBuffer.
  destruct (events_run (concat events) w) as (Hok & _ & Hsame).
  split; [done|]. split; [done|]. clear Hok Hsame.
  generalize (concat events) as l. intros l. revert w.
  induction l as [|ev l IH]; intros w; cbn [for_each].
  - exists []. rewrite app_nil_r. repeat split; [constructor|simpl; lia].
  - unfold bind.
    destruct (processEvent_trace ev w) as (log1 & Ht1 & Hc1 & Hn1).
    destruct (processEvent_run ev w) as (Hok1 & _).
    destruct (processEvent ev w) as [r1 w1]; simpl in *; subst r1.
    destruct (IH w1) as (log2 & Ht2 & Hc2 & Hn2).
    exists (log1 ++ log2). rewrite Ht2, Ht1, <- app_assoc.
    split; [done|]. split; [by apply Forall_app|].
    rewrite length_app. lia.
Qed.

Lemma counter_delta_sum (l : list PathWatcherEvent) :
  foldr (λ ev n, counter_delta (type ev) + n) 0 l
  = Z.of_nat (length (filter (λ ev, type ev = add_file) l))
    - Z.of_nat (length (filter (λ ev, type ev = remove_file) l)).
Proof.
  induction l as [|ev l IH]; [done|].
  cbn [foldr]. rewrite IH, !filter_cons.
  destruct (type ev); simpl;
    repeat (case_decide; try done); simpl; lia.
Qed.

(** X2.  After any batch, in any store, the counter is the counter before
    plus the number of [add_file] events of the batch minus the number of
    its [remove_file] events; what the tree holds plays no part. *)
Theorem counter_counts_events (events : list (list PathWatcherEvent)) w :
  size (store (snd (processEventBuffer events w)))
  = size (store w)
    + Z.of_nat (length (filter (λ ev, type ev = add_file) (concat events)))
    - Z.of_nat (length (filter (λ ev, type ev = remove_file) (concat events))).
Proof.
  unfold processEventBuffer.
  destruct (events_run (concat events) w) as (_ & Hs & _).
  rewrite Hs, counter_delta_sum. lia.
Qed.

Lemma processEventBuffer_app (events1 events2 : list (list PathWatcherEvent)) w :
  processEventBuffer (events1 ++ events2) w
  = processEventBuffer events2 (snd (processEventBuffer events1 w)).
Proof.
  unfold processEventBuffer. rewrite concat_app, for_each_app. unfold bind.
  destruct (events_run (concat events1) w) as (Hok & _).
  destruct (for_each (concat events1) processEvent w) as [r w1].
  simpl in *. by subst r.
Qed.

(** X3.  How the watcher cuts the events into batches does not matter:
    two batches delivered one after the other leave the world that the
    two delivered as one leave. *)
Theorem batches_compose (events1 events2 : list (list PathWatcherEvent)) w :
  processEventBuffer (events1 ++ events2) w
  = processEventBuffer events2 (snd (processEventBuffer events1 w)).
Proof. apply processEventBuffer_app. Qed.

Lemma sanitizePath_append_slash P :
  sanitizePath (String.append P "/") = sanitizePath P.
Proof.
  induction P as [|c rest IH]; [done|].
  change (String.append (String c rest) "/")
    with (String c (String.append rest "/")).
  cbn [sanitizePath]. by rewrite IH.
Qed.

Lemma sanitizePath_no_trailing_slash P (s : string) :
  sanitizePath P ≠ String.append s "/".
Proof.
  revert s. induction P as [|c rest IH]; intros s; cbn [sanitizePath].
  - by destruct s.
  - destruct (sanitizePath rest) as [|c' r] eqn:Hrest.
    + destruct (Ascii.eqb_spec c "/") as [->|Hc]; [by destruct s|].
      destruct s as [|a [|? ?]]; simpl; intros [=]; by try apply Hc.
    + destruct s as [|a s']; simpl; [intros [=]|].
      intros [= -> Hs]. by apply (IH s').
Qed.

(** X4.  A path and the same path with a slash more at its end address
    the same key: the key never ends in a slash, and an event for the one
    does exactly what the event for the other does. *)
Theorem trailing_slash_is_ignored (t : EventType) P b w :
  processEvent (mkEvent t (String.append P "/") b) w
  = processEvent (mkEvent t P b) w
  ∧ sanitizePath (String.append P "/") = sanitizePath P
  ∧ ∀ s : string, sanitizePath P ≠ String.append s "/".
Proof.
  split; [|split; [apply sanitizePath_append_slash|apply sanitizePath_no_trailing_slash]].
  unfold processEvent. cbn [path type buffer].
  by rewrite sanitizePath_append_slash.
Qed.

(** X5.  An event of any kind but [remove_dir] changes the entry of no
    key but its own: the entries of every other path, siblings and
    descendants alike, are what they were. *)
Theorem event_changes_only_its_key (t : EventType) P K b w :
  t ≠ remove_dir →
  K ≠ sanitizePath P →
  files (store (snd (processEvent (mkEvent t P b) w))) !! K
  = files (store w) !! K.
Proof.
  intros Ht HK. destruct t; [| done | | | |].
  - destruct (add_dir_run P b w) as (_ & -> & _). by rewrite lookup_insert_ne.
  - destruct (file_event_run add_file P b w) as (_ & (c & _ & ->) & _);
      [by left|]. by rewrite lookup_insert_ne.
  - destruct (file_event_run change P b w) as (_ & (c & _ & ->) & _);
      [by right|]. by rewrite lookup_insert_ne.
  - destruct (remove_file_run P b w) as (_ & -> & _). by rewrite lookup_delete_ne.
  - by rewrite update_directory_run.
Qed.

(** X6.  The last event of a batch decides the entry of its path,
    whatever came before it: a folder after [add_dir], absent after
    [remove_dir] and [remove_file], the file classified from the event's
    own buffer after [add_file] and [change]; [update_directory] leaves
    the entry as the events before it left it. *)
Theorem last_event_decides (events : list (list PathWatcherEvent))
    (ev : PathWatcherEvent) w :
  let w1 := snd (processEventBuffer events w) in
  files (store (snd (processEventBuffer (events ++ [[ev]]) w)))
    !! sanitizePath (path ev)
  = match type ev with
    | add_dir => Some Folder
    | remove_dir | remove_file => None
    | add_file | change =>
        match fst (classify (buffer ev) w1) with
        | Ok c => Some (File (snd c) (fst c))
        | Throw _ => None
        end
    | update_directory => files (store w1) !! sanitizePath (path ev)
    end.
Proof.
  cbv zeta. rewrite processEventBuffer_app.
  set (w1 := snd (processEventBuffer events w)).
  unfold processEventBuffer at 1. cbn [concat app for_each]. unfold bind.
  destruct (processEvent_run ev w1) as (Hok & _).
  destruct ev as [t P b]. cbn [type path buffer] in *.
  destruct t.
  - destruct (add_dir_run P b w1) as (_ & Hf & _).
    destruct (processEvent _ w1) as [r w2]; simpl in *; subst r. simpl.
    by rewrite Hf, lookup_insert_eq.
  - destruct (remove_dir_run P b w1) as (_ & Hf & _).
    destruct (processEvent _ w1) as [r w2]; simpl in *; subst r. simpl.
    by rewrite Hf, String.eqb_refl.
  - destruct (file_event_run add_file P b w1) as (_ & (c & Hc & Hf) & _);
      [by left|].
    destruct (processEvent _ w1) as [r w2]; simpl in *; subst r. simpl.
    by rewrite Hf, Hc, lookup_insert_eq.
  - destruct (file_event_run change P b w1) as (_ & (c & Hc & Hf) & _);
      [by right|].
    destruct (processEvent _ w1) as [r w2]; simpl in *; subst r. simpl.
    by rewrite Hf, Hc, lookup_insert_eq.
  - destruct (remove_file_run P b w1) as (_ & Hf & _).
    destruct (processEvent _ w1) as [r w2]; simpl in *; subst r. simpl.
    by rewrite Hf, lookup_delete_eq.
  - by rewrite update_directory_run.
Qed.

(** X7.  What an [add_file] or a [change] event stores under its path:
    for a buffer the sniffer calls binary, a binary file with empty
    content, the decoder not being run (nothing goes to the console); for
    any other buffer a text file holding the decoded text, or the empty
    string when the buffer is absent, has no byte or is rejected by the
    decoder. *)
Theorem stored_entry_of_buffer P b w :
  let entry :=
    if isBinaryFile b then File "" true
    else File (match b with
               | Some (x :: l) =>
                   match utf8_decode (x :: l) with
                   | Ok text => text
                   | Throw _ => ""
                   end
               | _ => ""
               end) false in
  files (store (snd (processEvent (mkEvent add_file P b) w))) !! sanitizePath P
  = Some entry
  ∧ files (store (snd (processEvent (mkEvent change P b) w))) !! sanitizePath P
    = Some entry
  ∧ (isBinaryFile b = true →
     trace (snd (processEvent (mkEvent change P b) w)) = trace w).
Proof.
  cbv zeta.
  assert (∀ w0, ∃ text,
            fst (classify b w0) = Ok (isBinaryFile b, text)
            ∧ (isBinaryFile b = true → text = "" ∧ classify b w0 = (Ok (true, ""), w0))
            ∧ (isBinaryFile b = false →
               text = match b with
                      | Some (x :: l) =>
                          match utf8_decode (x :: l) with
                          | Ok text => text
                          | Throw _ => ""
                          end
                      | _ => ""
                      end)) as Hclass.
  { intros w0. unfold classify. destruct (isBinaryFile b) eqn:Hb; cbn [negb].
    - exists "". by repeat split.
    - unfold bind.
      destruct (decodeFileContent_cases b w0)
        as [(text & -> & Ht)|(bytes & e & -> & He & ->)].
      + exists text. split; [done|]. split; [done|]. intros _.
        destruct b as [[|x l]|]; try done. by rewrite Ht.
      + exists "". split; [done|]. split; [done|]. intros _.
        destruct bytes as [|x l]; [done|]. by rewrite He. }
  assert (∀ (t : EventType), t = add_file ∨ t = change →
            files (store (snd (processEvent (mkEvent t P b) w))) !! sanitizePath P
            = Some (if isBinaryFile b then File "" true
                    else File (match b with
                               | Some (x :: l) =>
                                   match utf8_decode (x :: l) with
                                   | Ok text => text
                                   | Throw _ => ""
                                   end
                               | _ => ""
                               end) false)) as Hentry.
  { intros t Ht.
    destruct (file_event_run t P b w Ht) as (_ & (c & Hc & ->) & _).
    rewrite lookup_insert_eq. f_equal.
    destruct (Hclass w) as (text & Hr & Hbin & Htext).
    assert (c = (isBinaryFile b, text)) as -> by congruence. simpl.
    destruct (isBinaryFile b).
    - by destruct (Hbin eq_refl) as [-> _].
    - by rewrite Htext. }
  split; [apply Hentry; by left|]. split; [apply Hentry; by right|].
  intros Hb. cbv [processEvent type path buffer]. unfold bind.
  destruct (Hclass w) as (text & _ & Hbin & _). destruct (Hbin Hb) as [_ ->].
  by rewrite setKey_run.
Qed.

(** *** The direct write path, continued *)

(** X8.  [saveFile] for a path whose key is absent from the tree or holds
    a folder, the relative path not being empty, raises the error of
    [unreachable]: no call of the container is made and the store and
    the container are as before; the failure is logged. *)
Theorem saveFile_needs_a_file P content w :
  files (store w) !! P = None ∨ files (store w) !! P = Some Folder →
  path_relative (workdir (container w)) P ≠ "" →
  saveFile P content w
  = (Throw (UnreachableError "Expected content to be defined"),
     log_more [LoggerError update_failed
                 (UnreachableError "Expected content to be defined")] w).
Proof.
  intros Hentry Hrel%is_empty_false. run_saveFile. rewrite Hrel.
  by destruct Hentry as [-> | ->].
Qed.

(** X9.  Whatever [saveFile] for [P] does and however it ends, it leaves
    the tree entry and the ledger entry of every other path as they were,
    and it changes neither the counter nor the upload log. *)
Theorem saveFile_touches_only_its_path P content w :
  (∀ Q, Q ≠ P →
     files (store (snd (saveFile P content w))) !! Q = files (store w) !! Q
     ∧ modifiedFiles (store (snd (saveFile P content w))) !! Q
       = modifiedFiles (store w) !! Q)
  ∧ size (store (snd (saveFile P content w))) = size (store w)
  ∧ uploadedFiles (store (snd (saveFile P content w))) = uploadedFiles (store w)
  ∧ drawn (snd (saveFile P content w)) = drawn w.
Proof.
  run_saveFile.
  destruct (is_empty (path_relative _ P)); [done|].
  destruct (files (store w) !! P) as [[old ?|]|]; simpl; try done.
  destruct (is_empty old); [done|]. simpl.
  destruct (fs_writeFile _ _ _) as [[[]|e] c']; simpl; [|done].
  destruct (decide _); simpl; (split; [|done]); intros Q HQ;
    by rewrite ?lookup_insert_ne.
Qed.


(** X22.  [getFile] reads back what was put: after a [saveFile] that
    succeeded, the file with the saved content, not binary; after an
    [add_file] or a [change], a file; after an [add_dir], nothing, a
    folder being no file; after a [remove_file], nothing.  It changes
    nothing itself. *)
Theorem getFile_reads_back P content b w :
  (fst (saveFile P content w) = Ok tt →
   getFile P (snd (saveFile P content w))
   = (Ok (Some (File content false)), snd (saveFile P content w)))
  ∧ (∀ t : EventType, t = add_file ∨ t = change →
     ∃ (text : string) (isBinary : bool),
       getFile (sanitizePath P) (snd (processEvent (mkEvent t P b) w))
       = (Ok (Some (File text isBinary)), snd (processEvent (mkEvent t P b) w)))
  ∧ getFile (sanitizePath P) (snd (processEvent (mkEvent add_dir P b) w))
    = (Ok None, snd (processEvent (mkEvent add_dir P b) w))
  ∧ getFile (sanitizePath P) (snd (processEvent (mkEvent remove_file P b) w))
    = (Ok None, snd (processEvent (mkEvent remove_file P b) w)).
Proof.
  split; [|split; [|split]].
  - intros Hok.
    destruct (saveFile_success_run P content w Hok) as (_ & _ & _ & _ & _ & Htree & _).
    unfold getFile, bind, get_store, ret. by rewrite Htree.
  - intros t Ht.
    destruct (file_event_run t P b w Ht) as (_ & (c & _ & Hf) & _).
    exists (snd c), (fst c).
    unfold getFile, bind, get_store, ret. by rewrite Hf, lookup_insert_eq.
  - destruct (add_dir_run P b w) as (_ & Hf & _).
    unfold getFile, bind, get_store, ret. by rewrite Hf, lookup_insert_eq.
  - destruct (remove_file_run P b w) as (_ & Hf & _).
    unfold getFile, bind, get_store, ret. by rewrite Hf, lookup_delete_eq.
Qed.

(** *** Uploads and imports *)

Lemma follows_plan_ret w : follows_plan [] w (Ok tt, w).
Proof.
  repeat split. exists [], []. rewrite !app_nil_r. simpl.
  repeat split; try done. lia.
Qed.

Lemma follows_plan_bind (plan1 plan2 : list (string * string))
    (m : M unit) (k : unit → M unit) w :
  follows_plan plan1 w (m w) →
  (∀ w1, m w = (Ok tt, w1) → follows_plan plan2 w1 (k tt w1)) →
  follows_plan (plan1 ++ plan2) w (bind m k w).
Proof.
  intros (Hf & Hs & Hm & effects & uploads & Ht & Hu & Hp1 & Hp2 & Hlen & Hok) Hk.
  unfold bind. destruct (m w) as [[[]|e] w1]; simpl in *.
  - destruct (Hok eq_refl) as [Hup Hwr].
    destruct (Hk w1 eq_refl)
      as (Hf' & Hs' & Hm' & effects' & uploads' & Ht' & Hu' & Hp1' & Hp2' & Hlen' & Hok').
    split; [congruence|]. split; [congruence|]. split; [congruence|].
    exists (effects ++ effects'), (uploads ++ uploads').
    rewrite Ht', Hu', Ht, Hu, <- !app_assoc.
    unfold writes_of in *. rewrite flat_map_app, map_app, Hup, Hwr.
    split; [done|]. split; [done|].
    split; [by apply prefix_app|]. split; [by apply prefix_app|].
    split.
    + rewrite !length_app.
      assert (length plan1 = length uploads) as Hn
        by (rewrite <- Hup; apply length_map).
      unfold writes_of in Hlen'. lia.
    + intros Hr. destruct (Hok' Hr) as [-> ->]. done.
  - split; [done|]. split; [done|]. split; [done|].
    exists effects, uploads.
    split; [done|]. split; [done|]. split; [done|].
    split; [by apply prefix_app_r|]. split; [done|]. done.
Qed.

Lemma follows_plan_from (plan : list (string * string)) w0 w
    (res : Result unit * World) :
  store w0 = store w → trace w0 = trace w →
  follows_plan plan w0 res → follows_plan plan w res.
Proof. unfold follows_plan. by intros -> ->. Qed.

Lemma mkdir_follows_plan (p : string) w : follows_plan [] w (mkdir p w).
Proof.
  unfold mkdir. destruct (fs_mkdir _ _) as [r c]. simpl.
  repeat split. exists [FsMkdir p], []. rewrite app_nil_r. simpl.
  repeat split; try done. lia.
Qed.

Lemma for_each_follows_plan (plan : FsEntry → list (string * string))
    (body : FsEntry → M unit) (es : list FsEntry) :
  Forall (λ e, ∀ w, follows_plan (plan e) w (body e w)) es →
  ∀ w, follows_plan (flat_map plan es) w (for_each es body w).
Proof.
  induction 1 as [|e es He _ IH]; intros w; cbn [for_each flat_map].
  - apply follows_plan_ret.
  - apply follows_plan_bind; [apply He|]. intros w1 _. apply IH.
Qed.

(** Every turn of the loop of the import keeps to its plan. *)
Lemma processEntry_follows_plan (ig : Ignore) (e : FsEntry) :
  ∀ (currentPath : string) w,
    follows_plan (entry_plan ig currentPath e) w (processEntry ig currentPath e w).
Proof.
  induction e as [n text|n entries IH] using FsEntry_nested_ind;
    intros currentPath w.
  - cbn [processEntry entry_plan entry_name].
    destruct (ignores ig _); [apply follows_plan_ret|].
    set (p := entryPath_of currentPath n).
    unfold bind at 1. unfold settle.
    destruct text as [text|err].
    + unfold bind at 1. unfold fresh_id.
      apply (follows_plan_from _
               (mkWorld (store w) (container w) (S (drawn w)) (trace w)) w);
        [done|done|].
      change [(p, text)] with ([] ++ [(p, text)]).
      apply follows_plan_bind.
      * destruct (String.eqb _ _);
          [apply follows_plan_ret|apply mkdir_follows_plan].
      * intros w1 _. unfold bind, writeFile, modify_store.
        destruct (fs_writeFile _ _ _) as [[[]|err] c]; simpl.
        -- repeat split.
           exists [FsWriteFile p text],
                  [mkUploadedFile (random_id (drawn w)) p text].
           simpl. repeat split; try done. lia.
        -- repeat split. exists [FsWriteFile p text], []. rewrite app_nil_r.
           simpl. repeat split; try done. apply prefix_nil.
    + repeat split. exists [], []. rewrite !app_nil_r. simpl.
      repeat split; try done. lia.
  - rewrite processEntry_directory. cbn [entry_plan entry_name].
    destruct (ignores ig _); [apply follows_plan_ret|].
    change (flat_map (entry_plan ig (entryPath_of currentPath n)) entries)
      with ([] ++ flat_map (entry_plan ig (entryPath_of currentPath n)) entries).
    apply follows_plan_bind; [apply mkdir_follows_plan|].
    intros w1 _. apply for_each_follows_plan.
    eapply Forall_impl; [exact IH|]. by intros e He w0.
Qed.

Lemma loadFromFileSystem_follows_plan (sourceHandle : list FsEntry) w :
  follows_plan (import_plan (load_ignore sourceHandle) sourceHandle) w
    (loadFromFileSystem sourceHandle w).
Proof.
  unfold loadFromFileSystem, processDirectory, import_plan.
  apply for_each_follows_plan, Forall_forall. intros e _ w0.
  apply processEntry_follows_plan.
Qed.

Lemma uploadFile_run (name : string) (text : Result string) w :
  files (store (snd (uploadFile name text w))) = files (store w)
  ∧ size (store (snd (uploadFile name text w))) = size (store w)
  ∧ modifiedFiles (store (snd (uploadFile name text w)))
    = modifiedFiles (store w)
  ∧ (uploadedFiles (store (snd (uploadFile name text w)))
     = uploadedFiles (store w)
     ∨ ∃ content,
         text = Ok content
         ∧ uploadedFiles (store (snd (uploadFile name text w)))
           = uploadedFiles (store w)
             ++ [mkUploadedFile (random_id (drawn w)) name content]).
Proof.
  unfold uploadFile, bind, settle, fresh_id, writeFile, modify_store.
  destruct text as [content|err]; simpl; [|by repeat split; auto].
  destruct (fs_writeFile _ _ _) as [[[]|e] c]; simpl; repeat split; eauto.
Qed.

(** X13.  [uploadFile] first reads the file.  When the file cannot be
    read, it rejects with the error of the read and nothing has happened:
    no id is drawn, no call of the container made, the world is as it
    was.  When the text is read, it draws an id and issues one write;
    if the container accepts the write, a record with that id, the name
    and the text is appended to the upload log; if it rejects it,
    [uploadFile] rejects with the same error and the log is as before,
    the id spent.  In every case the tree, the counter and the ledger
    are not touched. *)
Theorem uploadFile_outcome (name : string) (text : Result string) w :
  let res := uploadFile name text w in
  files (store (snd res)) = files (store w)
  ∧ size (store (snd res)) = size (store w)
  ∧ modifiedFiles (store (snd res)) = modifiedFiles (store w)
  ∧ match text with
    | Throw e => res = (Throw e, w)
    | Ok content =>
        trace (snd res) = trace w ++ [FsWriteFile name content]
        ∧ drawn (snd res) = S (drawn w)
        ∧ match fst (fs_writeFile name content (container w)) with
          | Ok _ =>
              fst res = Ok tt
              ∧ uploadedFiles (store (snd res))
                = uploadedFiles (store w)
                  ++ [mkUploadedFile (random_id (drawn w)) name content]
          | Throw e =>
              fst res = Throw e
              ∧ uploadedFiles (store (snd res)) = uploadedFiles (store w)
          end
    end.
Proof.
  cbv zeta.
  unfold uploadFile, bind, settle, fresh_id, writeFile, modify_store.
  destruct text as [content|err]; simpl; [|done].
  by destruct (fs_writeFile _ _ _) as [[[]|e] c].
Qed.

(** X14.  A bulk import changes nothing but the upload log: whatever the
    source tree, the rules and the container, and however the import
    ends, the tree, the counter and the ledger are as they were, and the
    records the log held are still its first records. *)
Theorem import_leaves_the_tree_alone (sourceHandle : list FsEntry) w :
  files (store (snd (loadFromFileSystem sourceHandle w))) = files (store w)
  ∧ size (store (snd (loadFromFileSystem sourceHandle w))) = size (store w)
  ∧ modifiedFiles (store (snd (loadFromFileSystem sourceHandle w)))
    = modifiedFiles (store w)
  ∧ uploadedFiles (store w)
      `prefix_of` uploadedFiles (store (snd (loadFromFileSystem sourceHandle w))).
Proof.
  destruct (loadFromFileSystem_follows_plan sourceHandle w)
    as (Hf & Hs & Hm & effects & uploads & _ & Hu & _).
  repeat split; try done. rewrite Hu. by apply prefix_app_r.
Qed.

(** X15.  A bulk import records what it wrote and writes what the walk
    finds, in its order.  The files written are the first files of the
    plan (the readable files that the rules match neither themselves nor
    through a directory above them, depth first); the records added to
    the log are for the files written, in the same order, all of them but
    for the last when its write was rejected; and an import that returns
    has written and recorded every file of the plan. *)
Theorem import_keeps_to_the_plan (sourceHandle : list FsEntry) w :
  let res := loadFromFileSystem sourceHandle w in
  let plan := import_plan (load_ignore sourceHandle) sourceHandle in
  ∃ (effects : list Effect) (uploads : list UploadedFile),
    trace (snd res) = trace w ++ effects
    ∧ uploadedFiles (store (snd res)) = uploadedFiles (store w) ++ uploads
    ∧ map uploaded uploads `prefix_of` writes_of effects
    ∧ writes_of effects `prefix_of` plan
    ∧ (length (writes_of effects) ≤ S (length uploads))%nat
    ∧ (fst res = Ok tt →
       map uploaded uploads = plan ∧ writes_of effects = plan).
Proof.
  cbv zeta.
  by destruct (loadFromFileSystem_follows_plan sourceHandle w) as (_ & _ & _ & ?).
Qed.

(** X16.  With a container that accepts its calls and a source tree whose
    files can all be read, the import returns, having written and
    recorded each file of the plan once, in the order of the walk. *)
Theorem import_completes (healthy : Container → Prop)
    (sourceHandle : list FsEntry) w :
  container_accepts healthy →
  healthy (container w) →
  forallb readable sourceHandle = true →
  fst (loadFromFileSystem sourceHandle w) = Ok tt
  ∧ ∃ (effects : list Effect) (uploads : list UploadedFile),
      trace (snd (loadFromFileSystem sourceHandle w)) = trace w ++ effects
      ∧ uploadedFiles (store (snd (loadFromFileSystem sourceHandle w)))
        = uploadedFiles (store w) ++ uploads
      ∧ writes_of effects = import_plan (load_ignore sourceHandle) sourceHandle
      ∧ map uploaded uploads = import_plan (load_ignore sourceHandle) sourceHandle.
Proof.
  intros Hacc Hc Hread.
  assert (fst (loadFromFileSystem sourceHandle w) = Ok tt) as Hok.
  { unfold loadFromFileSystem, processDirectory.
    generalize (load_ignore sourceHandle) as ig. intros ig.
    revert w Hc. induction sourceHandle as [|e es IH]; intros w Hc; [done|].
    cbn [forallb] in Hread. apply andb_prop in Hread as [Hre Hres].
    cbn [for_each]. unfold bind.
    destruct (processEntry_ok healthy Hacc ig e "" w Hre Hc) as (Hok1 & Hh1).
    destruct (processEntry ig "" e w) as [r w1]; simpl in *; subst r.
    by apply IH. }
  split; [done|].
  destruct (loadFromFileSystem_follows_plan sourceHandle w)
    as (_ & _ & _ & effects & uploads & Ht & Hu & _ & _ & _ & Hall).
  destruct (Hall Hok) as [Hup Hwr].
  by exists effects, uploads.
Qed.

Lemma getFileHandle_text_found (handle : list FsEntry) (name content : string) :
  getFileHandle_text handle name = Ok content →
  FileEntry name (Ok content) ∈ handle.
Proof.
  induction handle as [|[n text|n es] rest IH]; cbn [getFileHandle_text]; [done| |].
  - destruct (String.eqb_spec n name) as [->|_].
    + intros ->. apply elem_of_cons. by left.
    + intros Hrest. apply elem_of_cons. right. by apply IH.
  - destruct (String.eqb n name); [done|].
    intros Hrest. apply elem_of_cons. right. by apply IH.
Qed.

(** X17.  When the root of the source tree holds no readable file named
    [.gitignore] (none at all, a directory of that name, or a file that
    cannot be read), the import runs with the built-in rules, and writes
    and records no path those rules match. *)
Theorem default_rules_without_gitignore (sourceHandle : list FsEntry) w :
  (∀ content, FileEntry ".gitignore" (Ok content) ∉ sourceHandle) →
  load_ignore sourceHandle = ignore_add_patterns default_patterns ignore_new
  ∧ ∀ p : string,
      ignores (ignore_add_patterns default_patterns ignore_new) p = true →
      (∀ text,
         FsWriteFile p text ∈ trace (snd (loadFromFileSystem sourceHandle w)) →
         FsWriteFile p text ∈ trace w)
      ∧ (∀ u,
           u ∈ uploadedFiles (store (snd (loadFromFileSystem sourceHandle w))) →
           upload_path u = p →
           u ∈ uploadedFiles (store w)).
Proof.
  intros Hnone.
  assert (load_ignore sourceHandle
          = ignore_add_patterns default_patterns ignore_new) as Hig.
  { unfold load_ignore.
    destruct (getFileHandle_text sourceHandle ".gitignore") as [content|e] eqn:Hg;
      [|done].
    apply getFileHandle_text_found in Hg. by destruct (Hnone content). }
  split; [done|]. intros p Hp.
  eapply import_extends_excludes; [|exact Hp].
  rewrite <- Hig. apply loadFromFileSystem_extends.
Qed.

(** *** Calls in sequence *)

(** What one call does to the ledger: nothing, unless it is a reset, which
    empties it, or a [saveFile] that records, for a path with no original
    yet, the non-empty content the tree holds for it. *)
Lemma run_call_ledger (c : Call) w :
  modifiedFiles (store (snd (run_call c w))) = modifiedFiles (store w)
  ∨ (is_reset c ∧ modifiedFiles (store (snd (run_call c w))) = ∅)
  ∨ (∃ (P old : string) (isBinary : bool),
       files (store w) !! P = Some (File old isBinary)
       ∧ old ≠ ""
       ∧ modifiedFiles (store w) !! P = None
       ∧ modifiedFiles (store (snd (run_call c w)))
         = <[P := old]> (modifiedFiles (store w))).
Proof.
  destruct c as [events|P content|name text|sourceHandle|]; cbn [run_call].
  - left. unfold processEventBuffer.
    by destruct (events_run (concat events) w) as (_ & _ & ? & _).
  - run_saveFile.
    destruct (is_empty (path_relative _ P)); [by left|].
    destruct (files (store w) !! P) as [[old isBinary|]|] eqn:Hfile;
      simpl; try by left.
    destruct (is_empty old) eqn:Hold; [by left|]. simpl.
    destruct (fs_writeFile _ _ _) as [[[]|e] c']; simpl; [|by left].
    destruct (decide (is_Some (modifiedFiles (store w) !! P))) as [|Hnone];
      simpl; [by left|].
    right; right. exists P, old, isBinary.
    split; [done|]. split; [by intros ->|]. split; [|done].
    destruct (modifiedFiles (store w) !! P) eqn:Hl; [|done].
    by destruct Hnone.
  - left. by destruct (uploadFile_run name text w) as (_ & _ & ? & _).
  - left. by destruct (loadFromFileSystem_follows_plan sourceHandle w)
      as (_ & _ & ? & _).
  - right; left. done.
Qed.

(** X11.  An original the ledger holds stays as it is through every
    sequence of calls (batches of watch events, saves, uploads, imports)
    that has no [resetFileModifications] in it, whether the calls succeed
    or fail. *)
Theorem recorded_original_persists (l : list Call) (Q original : string) w :
  Forall (λ c, ¬ is_reset c) l →
  modifiedFiles (store w) !! Q = Some original →
  modifiedFiles (store (run_calls l w)) !! Q = Some original.
Proof.
  intros Hl. revert w. induction Hl as [|c l Hc _ IH]; intros w Hrec; [done|].
  cbn [run_calls]. apply IH.
  destruct (run_call_ledger c w)
    as [-> | [[Hr _] | (P & old & isBinary & _ & _ & Hnone & ->)]];
    [done|done|].
  rewrite lookup_insert_ne; [done|]. intros ->. congruence.
Qed.

(** X12.  No sequence of calls made on the store of the constructor puts
    the empty string in the ledger as an original: what [saveFile]
    records is content it has found not to be empty. *)
Theorem ledger_originals_are_not_empty (l : list Call) (c : Container) :
  map_Forall (λ _ original, original ≠ "")
    (modifiedFiles (store (run_calls l (initial_world c)))).
Proof.
  assert (∀ w, map_Forall (λ (_ : string) original, original ≠ "")
                 (modifiedFiles (store w)) →
               map_Forall (λ (_ : string) original, original ≠ "")
                 (modifiedFiles (store (run_calls l w)))) as Hinv.
  { induction l as [|call l IH]; intros w Hw; [done|].
    cbn [run_calls]. apply IH.
    destruct (run_call_ledger call w)
      as [-> | [[_ ->] | (P & old & isBinary & _ & Hold & _ & ->)]].
    - done.
    - apply map_Forall_empty.
    - by apply map_Forall_insert_2. }
  apply Hinv. apply map_Forall_empty.
Qed.

(** X18.  The upload log only grows: through every sequence of calls the
    records it held remain its first records, in their order. *)
Theorem upload_log_is_append_only (l : list Call) w :
  uploadedFiles (store w) `prefix_of` uploadedFiles (store (run_calls l w)).
Proof.
  revert w. induction l as [|c l IH]; intros w; [done|].
  cbn [run_calls]. etrans; [|apply IH].
  destruct c as [events|P content|name text|sourceHandle|]; cbn [run_call].
  - unfold processEventBuffer.
    by destruct (events_run (concat events) w) as (_ & _ & _ & -> & _).
  - run_saveFile.
    destruct (is_empty (path_relative _ P)); [done|].
    destruct (files (store w) !! P) as [[old ?|]|]; simpl; try done.
    destruct (is_empty old); [done|]. simpl.
    destruct (fs_writeFile _ _ _) as [[[]|e] c']; simpl; [|done].
    by destruct (decide _).
  - destruct (uploadFile_run name text w) as (_ & _ & _ & [-> | (? & _ & ->)]);
      [done|by apply prefix_app_r].
  - destruct (loadFromFileSystem_follows_plan sourceHandle w)
      as (_ & _ & _ & effects & uploads & _ & -> & _).
    by apply prefix_app_r.
  - done.
Qed.

End Coverage.

(** ** The upload hook, its properties *)

Lemma list_filter_iff_elem {A} (P1 P2 : A → Prop)
    `{!∀ x, Decision (P1 x), !∀ x, Decision (P2 x)} (l : list A) :
  (∀ x, x ∈ l → (P1 x ↔ P2 x)) → filter P1 l = filter P2 l.
Proof.
  induction l as [|a l IH]; intros Hiff; [done|].
  rewrite !filter_cons.
  destruct (decide (P1 a)) as [H1|H1], (decide (P2 a)) as [H2|H2].
  - f_equal. apply IH. intros x Hx. apply Hiff, elem_of_cons. by right.
  - destruct H2. apply Hiff; [apply elem_of_cons; by left|done].
  - destruct H1. apply Hiff; [apply elem_of_cons; by left|done].
  - apply IH. intros x Hx. apply Hiff, elem_of_cons. by right.
Qed.


Lemma elem_of_mark_processed (l : list UploadedFile) (processed : gset string)
    (x : string) :
  x ∈ mark_processed l processed ↔ x ∈ processed ∨ ∃ file, file ∈ l ∧ id file = x.
Proof.
  unfold mark_processed. revert processed.
  induction l as [|f l IH]; intros processed; cbn [foldl].
  - split; [by left|]. intros [?|(file & Hin & _)]; [done|].
    by apply elem_of_nil in Hin.
  - rewrite IH, elem_of_union, elem_of_singleton. split.
    + intros [[->|?]|(file & Hin & Hid)].
      * right. exists f. split; [apply elem_of_cons; by left|done].
      * by left.
      * right. exists file. split; [apply elem_of_cons; by right|done].
    + intros [?|(file & [->|Hin]%elem_of_cons & Hid)].
      * left. by right.
      * left. by left.
      * right. by exists file.
Qed.

(** What a run leaves in the state, whether it made its calls or found
    nothing new. *)
Lemma processNewUploads_state (date_now : nat → Z)
    (storeMessageHistory : list Message → Result unit)
    (uploadedFiles : list UploadedFile) (h : HookState) :
  let newFiles := filter (λ file, id file ∉ processedFiles h) uploadedFiles in
  let h' := snd (processNewUploads date_now storeMessageHistory uploadedFiles h) in
  processedFiles h' = mark_processed newFiles (processedFiles h)
  ∧ messages h'
    = messages h
      ++ imap (λ i file, upload_message (date_now (clock h + i)%nat) file) newFiles
  ∧ clock h' = (clock h + length newFiles)%nat.
Proof.
  cbv zeta. unfold processNewUploads.
  destruct (filter _ uploadedFiles) as [|f l] eqn:Hnew.
  - simpl. rewrite app_nil_r. repeat split. lia.
  - cbn [length Nat.eqb]. by destruct (storeMessageHistory _).
Qed.

(** After a run every upload it was given is marked, so the same uploads
    hold nothing new. *)
Lemma processNewUploads_nothing_new (date_now : nat → Z)
    (storeMessageHistory : list Message → Result unit)
    (uploadedFiles : list UploadedFile) (h : HookState) :
  filter (λ file, id file ∉ processedFiles
            (snd (processNewUploads date_now storeMessageHistory uploadedFiles h)))
    uploadedFiles = [].
Proof.
  destruct (processNewUploads_state date_now storeMessageHistory uploadedFiles h)
    as (-> & _).
  set (marked := mark_processed _ _).
  assert (∀ file, file ∈ uploadedFiles → id file ∈ marked) as Hall.
  { intros file Hin. apply elem_of_mark_processed.
    destruct (decide (id file ∈ processedFiles h)); [by left|].
    right. exists file. split; [|done]. by apply list_elem_of_filter. }
  clearbody marked.
  induction uploadedFiles as [|f l IH]; [done|].
  rewrite filter_cons_False.
  - apply IH. intros file Hin. apply Hall, elem_of_cons. by right.
  - intros Hnot. apply Hnot, Hall, elem_of_cons. by left.
Qed.

Lemma processNewUploads_rerun (date_now date_now' : nat → Z)
    (storeMessageHistory storeMessageHistory' : list Message → Result unit)
    (uploadedFiles : list UploadedFile) (h : HookState) :
  processNewUploads date_now' storeMessageHistory' uploadedFiles
    (snd (processNewUploads date_now storeMessageHistory uploadedFiles h))
  = (Ok tt, snd (processNewUploads date_now storeMessageHistory uploadedFiles h)).
Proof.
  unfold processNewUploads at 1.
  by rewrite processNewUploads_nothing_new.
Qed.

(** X19.  A second run of [processNewUploads] over the uploads of the
    first does nothing: it returns with the state as it is, no message
    added and neither callback called, whatever the first run met and
    whatever the clock and the callback are the second time. *)
Theorem processNewUploads_twice (date_now date_now' : nat → Z)
    (storeMessageHistory storeMessageHistory' : list Message → Result unit)
    (uploadedFiles : list UploadedFile) (h : HookState) :
  processNewUploads date_now' storeMessageHistory' uploadedFiles
    (snd (processNewUploads date_now storeMessageHistory uploadedFiles h))
  = (Ok tt, snd (processNewUploads date_now storeMessageHistory uploadedFiles h)).
Proof. apply processNewUploads_rerun. Qed.

(** X20.  When there is an upload not yet processed and
    [storeMessageHistory] rejects, [processNewUploads] rejects with the
    same error and [parseMessages] is not called; but the messages are
    already in the array and the uploads already marked, so that a later
    run over the same uploads, with a callback that would succeed, calls
    nothing: these uploads are never parsed. *)
Theorem processNewUploads_store_failure (date_now date_now' : nat → Z)
    (storeMessageHistory storeMessageHistory' : list Message → Result unit)
    (uploadedFiles : list UploadedFile) (file : UploadedFile) (e : Error)
    (h : HookState) :
  file ∈ uploadedFiles →
  id file ∉ processedFiles h →
  (∀ l, storeMessageHistory l = Throw e) →
  let res := processNewUploads date_now storeMessageHistory uploadedFiles h in
  fst res = Throw e
  ∧ hook_calls (snd res)
    = hook_calls h ++ [StoreMessageHistory (messages (snd res))]
  ∧ (∃ m, m ∈ messages (snd res) ∧ message_id m = id file)
  ∧ id file ∈ processedFiles (snd res)
  ∧ hook_calls (snd (processNewUploads date_now' storeMessageHistory'
                       uploadedFiles (snd res)))
    = hook_calls (snd res).
Proof.
  intros Hin Hnew Hfail. cbv zeta.
  split; [|split; [|split; [|split]]].
  - unfold processNewUploads.
    destruct (filter _ uploadedFiles) as [|f l] eqn:Hf.
    + exfalso. eapply filter_nil_not_elem_of; [exact Hf|exact Hnew|exact Hin].
    + cbn [length Nat.eqb]. by rewrite Hfail.
  - unfold processNewUploads.
    destruct (filter _ uploadedFiles) as [|f l] eqn:Hf.
    + exfalso. eapply filter_nil_not_elem_of; [exact Hf|exact Hnew|exact Hin].
    + cbn [length Nat.eqb]. by rewrite Hfail.
  - destruct (processNewUploads_state date_now storeMessageHistory uploadedFiles h)
      as (_ & -> & _).
    assert (file ∈ filter (λ file, id file ∉ processedFiles h) uploadedFiles)
      as Hfile by by apply list_elem_of_filter.
    apply list_elem_of_lookup in Hfile as [i Hi].
    exists (upload_message (date_now (clock h + i)%nat) file). split; [|done].
    apply elem_of_app. right. apply list_elem_of_lookup. exists i.
    by rewrite list_lookup_imap, Hi.
  - destruct (processNewUploads_state date_now storeMessageHistory uploadedFiles h)
      as (-> & _).
    apply elem_of_mark_processed. right. exists file. split; [|done].
    by apply list_elem_of_filter.
  - by rewrite processNewUploads_rerun.
Qed.

Lemma without_time_imap (time : nat → Z) (l : list UploadedFile) :
  map without_time (imap (λ i file, upload_message (time i) file) l)
  = map (λ file, (id file, "assistant", upload_message_content file)) l.
Proof.
  revert time. induction l as [|f l IH]; intros time; [done|].
  rewrite imap_cons. cbn [map]. f_equal. apply (IH (time ∘ S)).
Qed.

(** X21.  Uploads processed as they arrive give the messages they give
    when processed at once, but for the times the messages carry: when no
    upload of [more] has the id of an upload of [first], a run over
    [first] followed by a run over [first ++ more] leaves messages with
    the ids, roles and contents, in the order, of those a single run over
    [first ++ more] leaves, and the same set of processed ids; each run
    reads its own clock, so [createdAt] may differ. *)
Theorem processNewUploads_incremental (date_now1 date_now2 date_now3 : nat → Z)
    (store1 store2 store3 : list Message → Result unit)
    (first more : list UploadedFile) (h : HookState) :
  (∀ file file', file ∈ first → file' ∈ more → id file ≠ id file') →
  let h1 := snd (processNewUploads date_now1 store1 first h) in
  let h2 := snd (processNewUploads date_now2 store2 (first ++ more) h1) in
  let h3 := snd (processNewUploads date_now3 store3 (first ++ more) h) in
  map without_time (messages h2) = map without_time (messages h3)
  ∧ length (messages h2) = length (messages h3)
  ∧ processedFiles h2 = processedFiles h3.
Proof.
  intros Hfresh. cbv zeta.
  pose proof (processNewUploads_nothing_new date_now1 store1 first h) as Hdone.
  destruct (processNewUploads_state date_now1 store1 first h) as (Hp1 & Hm1 & _).
  destruct (processNewUploads_state date_now3 store3 (first ++ more) h)
    as (-> & -> & _).
  set (h1 := snd (processNewUploads date_now1 store1 first h)) in *.
  destruct (processNewUploads_state date_now2 store2 (first ++ more) h1)
    as (-> & -> & _).
  assert (filter (λ file, id file ∉ processedFiles h1) more
          = filter (λ file, id file ∉ processedFiles h) more) as Hmore.
  { apply list_filter_iff_elem. intros file' Hin'. rewrite Hp1. split.
    - intros Hnot Hold. apply Hnot, elem_of_mark_processed. by left.
    - intros Hnot [Hold|(file & [_ Hin]%list_elem_of_filter & Hid)]%elem_of_mark_processed;
        [done|]. by apply (Hfresh file file'). }
  rewrite !filter_app, Hdone, Hmore, Hp1, Hm1. cbn [app].
  set (new1 := filter (λ file, id file ∉ processedFiles h) first).
  set (new2 := filter (λ file, id file ∉ processedFiles h) more).
  assert (map without_time
            ((messages h
              ++ imap (λ i file, upload_message (date_now1 (clock h + i)%nat) file) new1)
             ++ imap (λ i file, upload_message (date_now2 (clock h1 + i)%nat) file) new2)
          = map without_time
              (messages h
               ++ imap (λ i file, upload_message (date_now3 (clock h + i)%nat) file)
                    (new1 ++ new2))) as Hsame.
  { rewrite !map_app.
    rewrite (without_time_imap (λ i, date_now1 (clock h + i)%nat)),
            (without_time_imap (λ i, date_now2 (clock h1 + i)%nat)),
            (without_time_imap (λ i, date_now3 (clock h + i)%nat)).
    by rewrite map_app, app_assoc. }
  split; [exact Hsame|]. split.
  - apply (f_equal length) in Hsame. by rewrite !length_map in Hsame.
  - unfold mark_processed. by rewrite foldl_app.
Qed.

(** ** The theorems at concrete inputs *)

(** C1, at the failing input: in the tree with the folder [/src] and the
    file [/src/a.ts], a [remove_dir] for [/src] leaves [/src/a.ts]
    present. *)
Lemma remove_dir_keeps_entries_below_witness :
  files (store (snd (@processEvent sample (mkEvent remove_dir "/src" None)
                       (sample_world src_tree sample_container))))
    !! "/src/a.ts" = Some (File "x" false)
  ∧ files (store (snd (@processEvent sample (mkEvent remove_dir "/src" None)
                         (sample_world src_tree sample_container))))
      !! "/src" = None.
Proof.
  destruct (@remove_dir_keeps_entries_below sample "/src" "/src/a.ts" None
              (sample_world src_tree sample_container)) as [Hkeep Hgone].
  - discriminate.
  - cbn. unfold Sample.mapStoreOwnKeys. rewrite !not_elem_of_cons.
    repeat split; try discriminate. apply not_elem_of_nil.
  - split; [rewrite Hkeep; reflexivity|exact Hgone].
Defined.

(** C2 fails on the code: after the batch of the scenario the counter is
    2, and the three entries below [/src] are still present. *)
Lemma scenario_batch_counterexample :
  size (store (snd (@processEventBuffer sample scenario_batch
                      (@initial_world sample sample_container)))) = 2
  ∧ files (store (snd (@processEventBuffer sample scenario_batch
                         (@initial_world sample sample_container))))
      !! "/src/a.ts" = Some (File "x" false)
  ∧ files (store (snd (@processEventBuffer sample scenario_batch
                         (@initial_world sample sample_container))))
      !! "/src/sub" = Some Folder
  ∧ files (store (snd (@processEventBuffer sample scenario_batch
                         (@initial_world sample sample_container))))
      !! "/src/sub/b.ts" = Some (File "y" false).
Proof. vm_compute. repeat split. Qed.


(** C4 at [/home/project/a.ts], holding [old]: saved twice, the ledger
    keeps [old]. *)
Lemma saveFile_records_original_once_witness :
  modifiedFiles
    (store (snd (@saveFile sample "/home/project/a.ts" "new"
                   (sample_world (one_file_tree "a.ts" "old") sample_container))))
    !! "/home/project/a.ts" = Some "old"
  ∧ trace (snd (@saveFile sample "/home/project/a.ts" "new"
                  (sample_world (one_file_tree "a.ts" "old") sample_container)))
    = [FsWriteFile "a.ts" "new"; LoggerInfo "File updated"]
  ∧ modifiedFiles
      (store (snd (@saveFile sample "/home/project/a.ts" "newer"
                     (snd (@saveFile sample "/home/project/a.ts" "new"
                             (sample_world (one_file_tree "a.ts" "old")
                                sample_container))))))
      !! "/home/project/a.ts" = Some "old".
Proof.
  destruct (@saveFile_records_original_once sample "/home/project/a.ts" "old"
              false "new" "newer"
              (sample_world (one_file_tree "a.ts" "old") sample_container))
    as (Hledger & _ & Htrace & Hsecond);
    [reflexivity|discriminate|reflexivity|reflexivity|].
  split; [exact Hledger|]. split; [exact Htrace|].
  apply Hsecond. reflexivity.
Defined.

(** C5 fails on the code: for the working directory itself, which an
    [add_file] event with an empty buffer has put in the tree as an empty
    file, the relative path is empty and [saveFile] raises [EINVAL], not
    the error of [unreachable]. *)
Lemma saveFile_empty_content_counterexample :
  files (store workdir_file_world) !! "/home/project" = Some (File "" false)
  ∧ fst (@saveFile sample "/home/project" "new" workdir_file_world)
    = Throw (EINVAL "")
  ∧ store (snd (@saveFile sample "/home/project" "new" workdir_file_world))
    = store workdir_file_world.
Proof. repeat split; reflexivity. Qed.

(** C5 at [/home/project/a.ts], an empty file. *)
Lemma saveFile_empty_content_unreachable_witness :
  fst (@saveFile sample "/home/project/a.ts" "new"
         (sample_world (one_file_tree "a.ts" "") sample_container))
  = Throw (UnreachableError "Expected content to be defined")
  ∧ store (snd (@saveFile sample "/home/project/a.ts" "new"
                  (sample_world (one_file_tree "a.ts" "") sample_container)))
    = store (sample_world (one_file_tree "a.ts" "") sample_container).
Proof.
  destruct (@saveFile_empty_content_unreachable sample "/home/project/a.ts"
              false "new" (sample_world (one_file_tree "a.ts" "") sample_container))
    as [Hrun _]; [reflexivity|].
  rewrite Hrun; [split; reflexivity|discriminate].
Defined.

(** C7 on the sample platform: its sniffer does not call the empty buffer
    binary, and its decoder rejects the byte [0xFF]. *)
Lemma classify_empty_and_decode_failure_witness :
  @classify sample (Some []) (@initial_world sample sample_container)
  = (Ok (false, ""), @initial_world sample sample_container)
  ∧ @utf8_decode sample [xff] = Throw (TypeError "The encoded data was not valid.")
  ∧ fst (@decodeFileContent sample (Some [xff])
           (@initial_world sample sample_container)) = Ok "".
Proof.
  destruct (@classify_empty_and_decode_failure sample
              (@initial_world sample sample_container))
    as (_ & _ & Hempty & Hfail & _).
  split; [apply Hempty; discriminate|]. split; [reflexivity|].
  exact (proj1 (Hfail [xff] (TypeError "The encoded data was not valid.") eq_refl)).
Defined.

Lemma sample_container_accepts :
  @container_accepts sample (λ c, Sample.read_only c = []).
Proof.
  intros c Hc. split; [|done]. intros p text.
  cbn. unfold Sample.fs_writeFile. rewrite Hc. done.
Qed.

(** C8 on the sample platform: the scenario, run. *)
Lemma gitignore_rules_exclude_witness :
  fst (@loadFromFileSystem sample (scenario_tree "boom" "export {}")
         (@initial_world sample sample_container)) = Ok tt
  ∧ FsWriteFile "main.ts" "export {}"
      ∈ trace (snd (@loadFromFileSystem sample (scenario_tree "boom" "export {}")
                      (@initial_world sample sample_container)))
  ∧ (∀ text, FsWriteFile "error.log" text
               ∉ trace (snd (@loadFromFileSystem sample
                               (scenario_tree "boom" "export {}")
                               (@initial_world sample sample_container)))).
Proof.
  destruct (proj2 (@gitignore_rules_exclude sample)
              (λ c, Sample.read_only c = []) "boom" "export {}" sample_container
              sample_container_accepts eq_refl eq_refl eq_refl)
    as (Hok & Hmain & _ & Hlog & _).
  split; [exact Hok|]. split; [exact Hmain|exact Hlog].
Defined.

(** C9 at [/home/project/locked.ts], which the container rejects. *)
Lemma saveFile_write_failure_is_atomic_witness :
  fst (@saveFile sample "/home/project/locked.ts" "new"
         (sample_world (one_file_tree "locked.ts" "old") locked_container))
  = Throw (HostError "EACCES")
  ∧ store (snd (@saveFile sample "/home/project/locked.ts" "new"
                  (sample_world (one_file_tree "locked.ts" "old") locked_container)))
    = store (sample_world (one_file_tree "locked.ts" "old") locked_container).
Proof.
  destruct (@saveFile_write_failure_is_atomic sample "/home/project/locked.ts"
              "old" false "new" (HostError "EACCES")
              (sample_world (one_file_tree "locked.ts" "old") locked_container))
    as (Hfail & Hstore & _);
    [reflexivity|discriminate|discriminate|reflexivity|].
  split; [exact Hfail|exact Hstore].
Defined.

(** ** The further properties at concrete inputs *)

(** X5: an [add_file] for [/src/b.ts] leaves the entry of [/src/a.ts]. *)
Lemma event_changes_only_its_key_witness :
  files (store (snd (@processEvent sample
                       (mkEvent add_file "/src/b.ts" (Some [x79]))
                       (sample_world src_tree sample_container))))
    !! "/src/a.ts" = Some (File "x" false).
Proof.
  rewrite (@event_changes_only_its_key sample add_file "/src/b.ts" "/src/a.ts");
    [reflexivity|discriminate|discriminate].
Defined.

(** X8: [saveFile] for a folder. *)
Lemma saveFile_needs_a_file_witness :
  fst (@saveFile sample "/home/project/src" "new"
         (sample_world folder_tree sample_container))
  = Throw (UnreachableError "Expected content to be defined").
Proof.
  rewrite (@saveFile_needs_a_file sample "/home/project/src" "new"
             (sample_world folder_tree sample_container));
    [reflexivity|right; reflexivity|discriminate].
Defined.


(** X11: the original of [a.ts] through a save, a change, an upload and
    an import. *)
Lemma recorded_original_persists_witness :
  modifiedFiles (store saved_once_world) !! "/home/project/a.ts" = Some "old"
  ∧ modifiedFiles (store (@run_calls sample sample_calls saved_once_world))
      !! "/home/project/a.ts" = Some "old".
Proof.
  split; [reflexivity|].
  apply (@recorded_original_persists sample sample_calls); [|reflexivity].
  unfold sample_calls. repeat constructor; simpl; auto.
Defined.

(** X16: the import of the nested tree into a container that accepts. *)
Lemma import_completes_witness :
  fst (@loadFromFileSystem sample nested_tree
         (@initial_world sample sample_container)) = Ok tt
  ∧ map uploaded
      (uploadedFiles (store (snd (@loadFromFileSystem sample nested_tree
                                    (@initial_world sample sample_container)))))
    = [(".gitignore", String.append "*.log" (String.append line_feed "node_modules"));
       ("src/main.ts", "export {}");
       ("src/lib/util.ts", "export const u = 1")].
Proof.
  destruct (@import_completes sample (λ c, Sample.read_only c = []) nested_tree
              (@initial_world sample sample_container)
              sample_container_accepts eq_refl eq_refl)
    as (Hok & effects & uploads & _ & Hu & _ & Hup).
  split; [exact Hok|]. rewrite Hu. cbn [initial_world store uploadedFiles
    empty_store app]. rewrite Hup. reflexivity.
Defined.

(** X17: the import of a tree with no [.gitignore] skips [error.log]. *)
Lemma default_rules_without_gitignore_witness :
  @load_ignore sample plain_tree
  = @ignore_add_patterns sample default_patterns (@ignore_new sample)
  ∧ ∀ text, FsWriteFile "error.log" text
              ∉ trace (snd (@loadFromFileSystem sample plain_tree
                              (@initial_world sample sample_container))).
Proof.
  destruct (@default_rules_without_gitignore sample plain_tree
              (@initial_world sample sample_container)) as (Hrules & Hskip).
  - intros content Hin. unfold plain_tree in Hin.
    apply elem_of_cons in Hin as [Hin|Hin]; [discriminate Hin|].
    apply elem_of_cons in Hin as [Hin|Hin]; [discriminate Hin|].
    by apply elem_of_nil in Hin.
  - split; [exact Hrules|]. intros text Hin.
    destruct (Hskip "error.log" eq_refl) as (Hw & _).
    apply Hw in Hin. by apply elem_of_nil in Hin.
Defined.

(** X20: one upload, and a store of the history that rejects. *)
Lemma processNewUploads_store_failure_witness :
  fst (processNewUploads ticking rejecting_store [upload_a] (initial_hook []))
  = Throw (HostError "QuotaExceededError")
  ∧ hook_calls (snd (processNewUploads ticking accepting_store [upload_a]
                       (snd (processNewUploads ticking rejecting_store [upload_a]
                               (initial_hook [])))))
    = [StoreMessageHistory
         [upload_message (ticking 0) upload_a]].
Proof.
  destruct (processNewUploads_store_failure ticking ticking rejecting_store
              accepting_store [upload_a] upload_a
              (HostError "QuotaExceededError") (initial_hook []))
    as (Hfail & _ & _ & _ & Hrerun).
  - apply elem_of_cons. by left.
  - apply not_elem_of_empty.
  - reflexivity.
  - split; [exact Hfail|]. rewrite Hrerun. reflexivity.
Defined.

(** X21: two uploads, processed one after the other and at once, the
    second run and the single run each at a time of its own. *)
Lemma processNewUploads_incremental_witness :
  map without_time
    (messages (snd (processNewUploads (λ n, ticking n + 60000) accepting_store
                      [upload_a; upload_b]
                      (snd (processNewUploads ticking accepting_store [upload_a]
                              (initial_hook []))))))
  = map without_time
      (messages (snd (processNewUploads (λ n, ticking n + 250) accepting_store
                        [upload_a; upload_b] (initial_hook [])))).
Proof.
  apply (processNewUploads_incremental ticking (λ n, ticking n + 60000)
           (λ n, ticking n + 250) accepting_store accepting_store
           accepting_store [upload_a] [upload_b] (initial_hook [])).
  intros file file' ->%list_elem_of_singleton ->%list_elem_of_singleton.
  discriminate.
Defined.
